(** * The call-session controller of [VideoCall.tsx]

    A shallow embedding of the React component
    [src/app/components/VideoCall.tsx]: its [useState] cells, its [useRef]
    cells, the browser and PeerJS objects the refs point to (kept in a store,
    because the video elements, the refs and the connections alias the same
    media streams), and one function per handler of the source.

    Asynchrony is explicit.  Every callback of the source (signaling events,
    connection events, [getUserMedia] promises, [setTimeout] callbacks, clicks)
    is a constructor of [Event], and [step] runs the callback the source
    registered for it.  A timer is an entry of the store; the event
    [TimerFires] stands for the elapse of its delay. *)

From Stdlib Require Import DecimalNat DecimalString.
From stdpp Require Import base numbers option list strings.

Open Scope string_scope.
Open Scope list_scope.

(** ** Browser and library objects *)

Inductive TrackKind := AudioTrack | VideoTrack.

Global Instance TrackKind_eq_dec : EqDecision TrackKind.
Proof. solve_decision. Defined.

(** [ended] is [readyState === 'ended'], which [track.stop()] sets. *)
Record MediaStreamTrack := MkTrack {
  kind : TrackKind;
  enabled : bool;
  ended : bool
}.

(** A stream obtained from [getUserMedia] lives in the store [streams] and
    is referred to by its index; a stream delivered by the remote side is
    opaque to the component. *)
Inductive StreamRef :=
| Acquired (sid : nat)
| Received (rid : nat).

Record HTMLVideoElement := MkVideo { srcObject : option StreamRef }.

Inductive ConnectionStatus := connecting | connected | error | disconnected.

Global Instance ConnectionStatus_eq_dec : EqDecision ConnectionStatus.
Proof. solve_decision. Defined.

(** What a pending [setTimeout] callback will run.  The callback of the
    initialization effect reads the variable [connectionStatus] of the render
    that ran the effect, so the value it will see is fixed when the timer is
    created. *)
Inductive TimerCallback :=
| ConnectionTimeout (seen : ConnectionStatus)
| CallTimeout.

Record Timer := MkTimer {
  delay : N;
  armed : bool;
  callback : TimerCallback
}.

(** The listeners the component put on a connection: none (an incoming call
    not yet answered), the ['stream'] listener of [handleIncomingCall], or the
    ['stream'], ['close'] and ['error'] listeners of [makeOutgoingCall], which
    close over that call's [connectionTimeout]. *)
Inductive Listeners :=
| NoListeners
| IncomingListeners
| OutgoingListeners (timeout : nat).

Record MediaConnection := MkConn {
  remote : string;
  offered : option nat;
  closed : bool;
  listeners : Listeners
}.

(** A [Peer] created by the initialization effect; its listeners close over
    the [connectionTimeout] of that effect run. *)
Record Peer := MkPeer {
  requestedId : string;
  destroyed : bool;
  openTimeout : nat
}.

(** What runs when a [getUserMedia] promise settles. *)
Inductive Continuation :=
| IncomingFirst (call : nat)
| IncomingFallback (call : nat)
| OutgoingFirst (peer0 : option nat) (remote0 : string)
| OutgoingFallback (peer0 : option nat) (remote0 : string).

Record MediaRequest := MkRequest {
  wantVideo : bool;
  settled : bool;
  continuation : Continuation
}.

(** ** Observable output *)

Inductive Diagnostic :=
| NetworkOrServer (type message : string)
| IdInUse
| BrowserIncompatible
| Unknown (type message : string).

Inductive ConsoleEntry :=
| LogConnecting (id : string)
| ErrConnectionTimedOut
| LogPeerId (id : string)
| ErrGetMedia (video : bool)
| ErrPeer (type message : string)
| Troubleshooting (d : Diagnostic)
| WarnDisconnected
| WarnClosed
| LogNewConnection
| ErrCallTimedOut
| ErrCall (message : string)
| ErrMakingCall
| LogRetry (hadPeer : bool) (newId : string).

Inductive Action :=
| GetUserMedia (video audio : bool)
| NewPeer (id : string)
| PeerDestroy (p : nat)
| PeerReconnect (p : nat)
| PeerCall (p : nat) (to : string) (stream : nat)
| ConnAnswer (c : nat) (stream : nat)
| ConnClose (c : nat)
| TrackStop (stream : nat) (index : nat).

(** ** The component *)

(** The [useState] cells.  A setter writes the value the next render reads. *)
Record Hooks := MkHooks {
  actualUsername : string;
  peerId : string;
  remotePeerId : string;
  peer : option nat;
  callActive : bool;
  isMuted : bool;
  isVideoOff : bool;
  connectionStatus : ConnectionStatus
}.

(** The [useRef] cells.  A video ref is [None] while its element is not
    mounted. *)
Record Refs := MkRefs {
  stableIdRef : string;
  localVideoRef : option HTMLVideoElement;
  remoteVideoRef : option HTMLVideoElement;
  localStreamRef : option nat;
  connectionRef : option nat
}.

Record Store := MkStore {
  streams : list (list MediaStreamTrack);
  connections : list MediaConnection;
  peers : list Peer;
  timers : list Timer;
  requests : list MediaRequest
}.

Record Output := MkOutput {
  alerts : list string;
  console : list ConsoleEntry;
  actions : list Action
}.

(** [effectDeps] is the dependency array [[actualUsername]] of the last run of
    the initialization effect, [effectCleanup] the timer and peer its clean-up
    function closes over (absent when the effect returned early). *)
Record State := MkState {
  hooks : Hooks;
  refs : Refs;
  effectDeps : option string;
  effectCleanup : option (nat * nat);
  store : Store;
  out : Output
}.

(** *** Field updates *)

Definition with_hooks (f : Hooks → Hooks) (s : State) : State :=
  MkState (f (hooks s)) (refs s) (effectDeps s) (effectCleanup s) (store s) (out s).
Definition with_refs (f : Refs → Refs) (s : State) : State :=
  MkState (hooks s) (f (refs s)) (effectDeps s) (effectCleanup s) (store s) (out s).
Definition with_store (f : Store → Store) (s : State) : State :=
  MkState (hooks s) (refs s) (effectDeps s) (effectCleanup s) (f (store s)) (out s).
Definition with_out (f : Output → Output) (s : State) : State :=
  MkState (hooks s) (refs s) (effectDeps s) (effectCleanup s) (store s) (f (out s)).
Definition with_effect (d : option string) (c : option (nat * nat)) (s : State) : State :=
  MkState (hooks s) (refs s) d c (store s) (out s).

Definition setActualUsername (v : string) : State → State :=
  with_hooks (λ h, MkHooks v (peerId h) (remotePeerId h) (peer h)
                     (callActive h) (isMuted h) (isVideoOff h) (connectionStatus h)).
Definition setPeerId (v : string) : State → State :=
  with_hooks (λ h, MkHooks (actualUsername h) v (remotePeerId h) (peer h)
                     (callActive h) (isMuted h) (isVideoOff h) (connectionStatus h)).
Definition setRemotePeerId (v : string) : State → State :=
  with_hooks (λ h, MkHooks (actualUsername h) (peerId h) v (peer h)
                     (callActive h) (isMuted h) (isVideoOff h) (connectionStatus h)).
Definition setPeer (v : option nat) : State → State :=
  with_hooks (λ h, MkHooks (actualUsername h) (peerId h) (remotePeerId h) v
                     (callActive h) (isMuted h) (isVideoOff h) (connectionStatus h)).
Definition setCallActive (v : bool) : State → State :=
  with_hooks (λ h, MkHooks (actualUsername h) (peerId h) (remotePeerId h) (peer h)
                     v (isMuted h) (isVideoOff h) (connectionStatus h)).
Definition setIsMuted (v : bool) : State → State :=
  with_hooks (λ h, MkHooks (actualUsername h) (peerId h) (remotePeerId h) (peer h)
                     (callActive h) v (isVideoOff h) (connectionStatus h)).
Definition setIsVideoOff (v : bool) : State → State :=
  with_hooks (λ h, MkHooks (actualUsername h) (peerId h) (remotePeerId h) (peer h)
                     (callActive h) (isMuted h) v (connectionStatus h)).
Definition setConnectionStatus (v : ConnectionStatus) : State → State :=
  with_hooks (λ h, MkHooks (actualUsername h) (peerId h) (remotePeerId h) (peer h)
                     (callActive h) (isMuted h) (isVideoOff h) v).

Definition set_stableIdRef (v : string) : State → State :=
  with_refs (λ r, MkRefs v (localVideoRef r) (remoteVideoRef r)
                    (localStreamRef r) (connectionRef r)).
Definition set_localVideoRef (v : option HTMLVideoElement) : State → State :=
  with_refs (λ r, MkRefs (stableIdRef r) v (remoteVideoRef r)
                    (localStreamRef r) (connectionRef r)).
Definition set_remoteVideoRef (v : option HTMLVideoElement) : State → State :=
  with_refs (λ r, MkRefs (stableIdRef r) (localVideoRef r) v
                    (localStreamRef r) (connectionRef r)).
Definition set_localStreamRef (v : option nat) : State → State :=
  with_refs (λ r, MkRefs (stableIdRef r) (localVideoRef r) (remoteVideoRef r)
                    v (connectionRef r)).
Definition set_connectionRef (v : option nat) : State → State :=
  with_refs (λ r, MkRefs (stableIdRef r) (localVideoRef r) (remoteVideoRef r)
                    (localStreamRef r) v).

Definition with_streams (f : list (list MediaStreamTrack) → list (list MediaStreamTrack))
  : State → State :=
  with_store (λ w, MkStore (f (streams w)) (connections w) (peers w) (timers w) (requests w)).
Definition with_connections (f : list MediaConnection → list MediaConnection)
  : State → State :=
  with_store (λ w, MkStore (streams w) (f (connections w)) (peers w) (timers w) (requests w)).
Definition with_peers (f : list Peer → list Peer) : State → State :=
  with_store (λ w, MkStore (streams w) (connections w) (f (peers w)) (timers w) (requests w)).
Definition with_timers (f : list Timer → list Timer) : State → State :=
  with_store (λ w, MkStore (streams w) (connections w) (peers w) (f (timers w)) (requests w)).
Definition with_requests (f : list MediaRequest → list MediaRequest) : State → State :=
  with_store (λ w, MkStore (streams w) (connections w) (peers w) (timers w) (f (requests w))).

(** [alert], [console.*] and the calls into the browser and PeerJS, in the
    order they happen. *)
Definition alert (msg : string) : State → State :=
  with_out (λ o, MkOutput (alerts o ++ [msg]) (console o) (actions o)).
Definition log (e : ConsoleEntry) : State → State :=
  with_out (λ o, MkOutput (alerts o) (console o ++ [e]) (actions o)).
Definition act (a : list Action) : State → State :=
  with_out (λ o, MkOutput (alerts o) (console o) (actions o ++ a)).

(** ** Library calls *)

(** [track.stop()] *)
Definition stop (t : MediaStreamTrack) : MediaStreamTrack :=
  MkTrack (kind t) (enabled t) true.

(** [stream.getTracks().forEach(track => track.stop())] *)
Definition stopTracks (sid : nat) (s : State) : State :=
  match streams (store s) !! sid with
  | Some tracks =>
      act (TrackStop sid <$> seq 0 (length tracks))
          (with_streams (alter (fmap stop) sid) s)
  | None => s
  end.

(** [connection.close()] *)
Definition close (c : nat) (s : State) : State :=
  act [ConnClose c]
      (with_connections
         (alter (λ k, MkConn (remote k) (offered k) true (listeners k)) c) s).

(** [clearTimeout(t)] *)
Definition clearTimeout (t : nat) : State → State :=
  with_timers (alter (λ k, MkTimer (delay k) false (callback k)) t).

(** [setTimeout(cb, ms)]; the new timer's id is its index. *)
Definition setTimeout (cb : TimerCallback) (ms : N) (s : State) : nat * State :=
  (length (timers (store s)), with_timers (λ l, l ++ [MkTimer ms true cb]) s).

(** [video.srcObject = v], when the ref holds an element. *)
Definition set_srcObject (v : option StreamRef) (e : option HTMLVideoElement)
  : option HTMLVideoElement :=
  match e with
  | Some _ => Some (MkVideo v)
  | None => None
  end.

(** ** [endCall] (lines 290-333) *)

Definition endCall (s : State) : State :=
  let s1 := match connectionRef (refs s) with
            | Some c => set_connectionRef None (close c s)
            | None => s
            end in
  let s2 := match localStreamRef (refs s1) with
            | Some sid => set_localStreamRef None (stopTracks sid s1)
            | None => s1
            end in
  let s3 := set_localVideoRef (set_srcObject None (localVideoRef (refs s2))) s2 in
  let s4 := set_remoteVideoRef (set_srcObject None (remoteVideoRef (refs s3))) s3 in
  setIsVideoOff false (setIsMuted false (setRemotePeerId "" (setCallActive false s4))).

(** ** The initialization effect (lines 40-199) *)

(** [peer.destroy()] *)
Definition destroy (p : nat) (s : State) : State :=
  act [PeerDestroy p]
      (with_peers (alter (λ k, MkPeer (requestedId k) true (openTimeout k)) p) s).

(** The clean-up function the effect returns (lines 185-198); [t] and [p] are
    the [connectionTimeout] and [newPeer] of its closure. *)
Definition cleanup (t p : nat) (s : State) : State :=
  let s1 := clearTimeout t s in
  let s2 := match localStreamRef (refs s1) with
            | Some sid => stopTracks sid s1
            | None => s1
            end in
  setConnectionStatus disconnected (destroy p s2).

(** The effect body.  [r] holds the values of the render whose closure the
    effect is: [peer], [actualUsername] and [connectionStatus] are the
    constants of that render, whatever the setters do afterwards.  The
    listeners of lines 74-179 are attached to the new peer; they are the
    functions [onOpen] ... [onConnection] below. *)
Definition initEffect (r : Hooks) (s : State) : State :=
  match peer r with
  | Some _ => with_effect (Some (actualUsername r)) None s
  | None =>
      let s1 := log (LogConnecting (actualUsername r))
                    (setConnectionStatus connecting s) in
      let p := length (peers (store s1)) in
      let '(t, s2) := setTimeout (ConnectionTimeout (connectionStatus r)) 15000 s1 in
      let s3 := act [NewPeer (actualUsername r)]
                    (with_peers (λ l, l ++ [MkPeer (actualUsername r) false t]) s2) in
      with_effect (Some (actualUsername r)) (Some (t, p)) (setPeer (Some p) s3)
  end.

(** What React does after a render for an effect with dependencies
    [[actualUsername]]: nothing when the dependency is the one of the last
    run, else the previous clean-up and then the effect of this render. *)
Definition runEffects (s : State) : State :=
  let r := hooks s in
  if decide (effectDeps s = Some (actualUsername r)) then s
  else
    let s1 := match effectCleanup s with
              | Some (t, p) => cleanup t p s
              | None => s
              end in
    initEffect r s1.

(** ['user_' + Math.floor(Math.random() * 1000)], for the draw [n]: the
    number is appended in decimal. *)
Definition userId (n : nat) : string :=
  "user_" +:+ NilEmpty.string_of_uint (Nat.to_uint n).

(** The first render (lines 14-30): [n0] is the draw of line 14, [username]
    the prop; [username || stableIdRef.current] takes the prop unless it is
    absent or empty. *)
Definition initialState (username : option string) (n0 : nat) : State :=
  let name := match username with
              | Some u => if decide (u = "") then userId n0 else u
              | None => userId n0
              end in
  MkState (MkHooks name "" "" None false false false disconnected)
          (MkRefs (userId n0) (Some (MkVideo None)) (Some (MkVideo None)) None None)
          None None
          (MkStore [] [] [] [] [])
          (MkOutput [] [] []).

Definition mount (username : option string) (n0 : nat) : State :=
  runEffects (initialState username n0).

(** *** Signaling listeners *)

(** [newPeer.on('open', ...)] (lines 74-87) of peer [p]. *)
Definition onOpen (p : nat) (id : string) (s : State) : State :=
  match peers (store s) !! p with
  | Some k =>
      clearTimeout (openTimeout k)
        (setConnectionStatus connected (setPeerId id (log (LogPeerId id) s)))
  | None => s
  end.

(** [navigator.mediaDevices.getUserMedia({video, audio: true})] followed by
    [await]: the rest of the async function is the continuation [k]. *)
Definition getUserMedia (video : bool) (k : Continuation) (s : State) : State :=
  act [GetUserMedia video true]
      (with_requests (λ l, l ++ [MkRequest video false k]) s).

(** [newPeer.on('call', ...)] (lines 89-111) up to the first [await]; the
    library hands over a new connection from [from]. *)
Definition onCall (from : string) (s : State) : State :=
  let c := length (connections (store s)) in
  let s1 := with_connections (λ l, l ++ [MkConn from None false NoListeners]) s in
  getUserMedia true (IncomingFirst c) (set_connectionRef (Some c) s1).

(** [newPeer.on('error', ...)] (lines 114-152). *)
Definition onError (type message : string) (s : State) : State :=
  let s1 := log (ErrPeer type message) s in
  if bool_decide (type = "network" ∨ type = "server-error" ∨ type = "socket-error") then
    setConnectionStatus error (log (Troubleshooting (NetworkOrServer type message)) s1)
  else if bool_decide (type = "unavailable-id") then
    setConnectionStatus error (log (Troubleshooting IdInUse) s1)
  else if bool_decide (type = "browser-incompatible") then
    setConnectionStatus error (log (Troubleshooting BrowserIncompatible) s1)
  else
    setConnectionStatus error (log (Troubleshooting (Unknown type message)) s1).

(** [newPeer.on('disconnected', ...)] (lines 154-168). *)
Definition onDisconnected (p : nat) (s : State) : State :=
  act [PeerReconnect p] (setConnectionStatus disconnected (log WarnDisconnected s)).

(** [newPeer.on('close', ...)] (lines 170-174). *)
Definition onClose (s : State) : State :=
  setConnectionStatus disconnected (log WarnClosed s).

(** [newPeer.on('connection', ...)] (lines 177-179). *)
Definition onConnection (s : State) : State := log LogNewConnection s.

(** ** Calls *)

(** [call.answer(stream)] *)
Definition answer (c sid : nat) (s : State) : State :=
  act [ConnAnswer c sid]
      (with_connections
         (alter (λ k, MkConn (remote k) (Some sid) (closed k) (listeners k)) c) s).

(** [call.on(...)]: the listeners [l] are put on connection [c]. *)
Definition listen (c : nat) (l : Listeners) : State → State :=
  with_connections (alter (λ k, MkConn (remote k) (offered k) (closed k) l) c).

(** [handleIncomingCall] (lines 202-216). *)
Definition handleIncomingCall (c sid : nat) (s : State) : State :=
  let s1 := set_localStreamRef (Some sid) s in
  let s2 := set_localVideoRef
              (set_srcObject (Some (Acquired sid)) (localVideoRef (refs s1))) s1 in
  let s3 := answer c sid s2 in
  let s4 := setCallActive true s3 in
  listen c IncomingListeners s4.

(** [startCall] (lines 218-240) up to the first [await]; the continuation
    keeps [peer] and [remotePeerId] of the render the click handler belongs
    to. *)
Definition startCall (s : State) : State :=
  let h := hooks s in
  if bool_decide (peer h = None ∨ remotePeerId h = "") then s
  else getUserMedia true (OutgoingFirst (peer h) (remotePeerId h)) s.

(** [makeOutgoingCall] (lines 243-288) in the closure with [peer = p0] and
    [remotePeerId = r0]; [callOk] tells whether [peer.call] returns a
    connection or throws. *)
Definition makeOutgoingCall (p0 : option nat) (r0 : string) (sid : nat)
    (callOk : bool) (s : State) : State :=
  match p0 with
  | None => s
  | Some p =>
      if bool_decide (r0 = "") then s
      else
        let s1 := set_localStreamRef (Some sid) s in
        let s2 := set_localVideoRef
                    (set_srcObject (Some (Acquired sid)) (localVideoRef (refs s1))) s1 in
        if callOk then
          let c := length (connections (store s2)) in
          let s3 := act [PeerCall p r0 sid]
                        (with_connections
                           (λ l, l ++ [MkConn r0 (Some sid) false NoListeners]) s2) in
          let s4 := set_connectionRef (Some c) s3 in
          let '(t, s5) := setTimeout CallTimeout 15000 s4 in
          setCallActive true (listen c (OutgoingListeners t) s5)
        else
          alert "Failed to establish call. Please try again."
                (log ErrMakingCall (act [PeerCall p r0 sid] s2))
  end.

(** A [getUserMedia] promise is settled once. *)
Definition settle (i : nat) : State → State :=
  with_requests (alter (λ q, MkRequest (wantVideo q) true (continuation q)) i).

(** Request [i] resolves with a new stream of [tracks]: the code after the
    [await] runs (lines 96, 102, 224, 231-234). *)
Definition mediaGranted (i : nat) (tracks : list MediaStreamTrack) (callOk : bool)
    (s : State) : State :=
  match requests (store s) !! i with
  | Some q =>
      if settled q then s
      else
        let sid := length (streams (store s)) in
        let s1 := with_streams (λ l, l ++ [tracks]) (settle i s) in
        match continuation q with
        | IncomingFirst c | IncomingFallback c => handleIncomingCall c sid s1
        | OutgoingFirst p0 r0 => makeOutgoingCall p0 r0 sid callOk s1
        | OutgoingFallback p0 r0 =>
            alert "Video is not available. Proceeding with audio only."
                  (setIsVideoOff true (makeOutgoingCall p0 r0 sid callOk s1))
        end
  | None => s
  end.

(** Request [i] rejects: the [catch] blocks (lines 97-106, 225-238). *)
Definition mediaDenied (i : nat) (s : State) : State :=
  match requests (store s) !! i with
  | Some q =>
      if settled q then s
      else
        let s1 := log (ErrGetMedia (wantVideo q)) (settle i s) in
        match continuation q with
        | IncomingFirst c => getUserMedia false (IncomingFallback c) s1
        | OutgoingFirst p0 r0 => getUserMedia false (OutgoingFallback p0 r0) s1
        | IncomingFallback _ | OutgoingFallback _ _ =>
            alert "Could not access camera or microphone. Please check permissions." s1
        end
  | None => s
  end.

(** *** Connection listeners and the timers *)

Definition attachRemote (rid : nat) (s : State) : State :=
  set_remoteVideoRef (set_srcObject (Some (Received rid)) (remoteVideoRef (refs s))) s.

(** [call.on('stream', ...)] (lines 211-215 and 264-269). *)
Definition onStream (c rid : nat) (s : State) : State :=
  match connections (store s) !! c with
  | Some k =>
      match listeners k with
      | NoListeners => s
      | IncomingListeners => attachRemote rid s
      | OutgoingListeners t => attachRemote rid (clearTimeout t s)
      end
  | None => s
  end.

(** [call.on('close', ...)] (lines 271-274). *)
Definition onConnClose (c : nat) (s : State) : State :=
  match connections (store s) !! c with
  | Some k =>
      match listeners k with
      | OutgoingListeners t => endCall (clearTimeout t s)
      | _ => s
      end
  | None => s
  end.

(** [call.on('error', ...)] (lines 276-281). *)
Definition onConnError (c : nat) (message : string) (s : State) : State :=
  match connections (store s) !! c with
  | Some k =>
      match listeners k with
      | OutgoingListeners t =>
          endCall (alert ("Call error: " +:+ message)
                         (log (ErrCall message) (clearTimeout t s)))
      | _ => s
      end
  | None => s
  end.

(** [!remoteVideoRef.current?.srcObject] *)
Definition noRemoteStream (s : State) : bool :=
  match remoteVideoRef (refs s) with
  | Some (MkVideo (Some _)) => false
  | _ => true
  end.

(** The callback of lines 65-71, in a closure where [connectionStatus] is
    [seen]. *)
Definition connectionTimedOut (seen : ConnectionStatus) (s : State) : State :=
  match seen with
  | connecting => setConnectionStatus error (log ErrConnectionTimedOut s)
  | _ => s
  end.

(** The callback of lines 256-262. *)
Definition callTimedOut (s : State) : State :=
  if noRemoteStream s then
    endCall (alert "Could not connect to peer. Please check the remote ID and try again."
                   (log ErrCallTimedOut s))
  else s.

(** The delay of timer [t] elapses: a timer that was cleared, or that has
    fired, runs nothing. *)
Definition timerFires (t : nat) (s : State) : State :=
  match timers (store s) !! t with
  | Some k =>
      if armed k then
        let s1 := clearTimeout t s in
        match callback k with
        | ConnectionTimeout seen => connectionTimedOut seen s1
        | CallTimeout => callTimedOut s1
        end
      else s
  | None => s
  end.

(** ** Controls *)

(** [track.enabled = !track.enabled] on the tracks of kind [k]: the arrays
    [getAudioTracks()] and [getVideoTracks()] hold the stream's own track
    objects. *)
Definition flipKind (k : TrackKind) (t : MediaStreamTrack) : MediaStreamTrack :=
  if decide (kind t = k) then MkTrack (kind t) (negb (enabled t)) (ended t) else t.

(** [toggleMute] (lines 335-343). *)
Definition toggleMute (s : State) : State :=
  match localStreamRef (refs s) with
  | Some sid =>
      setIsMuted (negb (isMuted (hooks s)))
                 (with_streams (alter (fmap (flipKind AudioTrack)) sid) s)
  | None => s
  end.

(** [toggleVideo] (lines 345-353). *)
Definition toggleVideo (s : State) : State :=
  match localStreamRef (refs s) with
  | Some sid =>
      setIsVideoOff (negb (isVideoOff (hooks s)))
                    (with_streams (alter (fmap (flipKind VideoTrack)) sid) s)
  | None => s
  end.

(** [retryConnection] (lines 356-389); [n] is the draw of line 378. *)
Definition retryConnection (n : nat) (s : State) : State :=
  let s0 := log (LogRetry (bool_decide (peer (hooks s) ≠ None)) (userId n)) s in
  let s1 := match peer (hooks s0) with
            | Some p => setPeer None (destroy p s0)
            | None => s0
            end in
  let s2 := setConnectionStatus connecting (setPeerId "" s1) in
  let s3 := set_stableIdRef (userId n) s2 in
  let s4 := alert "Attempting to reconnect with a new ID. Please wait a moment..." s3 in
  setActualUsername (userId n) s4.

(** ** Events *)

Inductive Event :=
| PeerOpen (p : nat) (id : string)
| PeerIncomingCall (p : nat) (from : string)
| PeerError (p : nat) (type message : string)
| PeerDisconnected (p : nat)
| PeerClose (p : nat)
| PeerConnection (p : nat)
| MediaGranted (request : nat) (tracks : list MediaStreamTrack) (callOk : bool)
| MediaDenied (request : nat)
| ConnStream (c : nat) (rid : nat)
| ConnClosed (c : nat)
| ConnError (c : nat) (message : string)
| TimerFires (t : nat)
| TypeRemoteId (v : string)
| ClickStartCall
| ClickEndCall
| ClickMute
| ClickVideo
| ClickRetry (n : nat).

(** A peer's listeners exist once the effect has created it. *)
Definition ifPeer (p : nat) (f : State → State) (s : State) : State :=
  match peers (store s) !! p with
  | Some _ => f s
  | None => s
  end.

(** What the markup lets the user do (lines 431-497): the remote-id field is
    disabled during a call or when not connected; the start button is shown
    when no call is active and disabled without ids or connection; mute,
    video and end are shown during a call; retry is shown on error. *)
Definition offered_by_ui (e : Event) (s : State) : bool :=
  let h := hooks s in
  match e with
  | TypeRemoteId _ =>
      negb (callActive h) && bool_decide (connectionStatus h = connected)
  | ClickStartCall =>
      negb (callActive h)
      && negb (bool_decide (remotePeerId h = ""))
      && negb (bool_decide (peerId h = ""))
      && bool_decide (connectionStatus h = connected)
  | ClickEndCall | ClickMute | ClickVideo => callActive h
  | ClickRetry _ => bool_decide (connectionStatus h = error)
  | _ => true
  end.

(** One turn of the event loop: the callback runs to completion, then React
    renders and runs the effect if its dependency changed. *)
Definition handle (e : Event) (s : State) : State :=
  match e with
  | PeerOpen p id => onOpen p id s
  | PeerIncomingCall p from => ifPeer p (onCall from) s
  | PeerError p type message => ifPeer p (onError type message) s
  | PeerDisconnected p => ifPeer p (onDisconnected p) s
  | PeerClose p => ifPeer p onClose s
  | PeerConnection p => ifPeer p onConnection s
  | MediaGranted i tracks callOk => mediaGranted i tracks callOk s
  | MediaDenied i => mediaDenied i s
  | ConnStream c rid => onStream c rid s
  | ConnClosed c => onConnClose c s
  | ConnError c message => onConnError c message s
  | TimerFires t => timerFires t s
  | TypeRemoteId v => setRemotePeerId v s
  | ClickStartCall => startCall s
  | ClickEndCall => endCall s
  | ClickMute => toggleMute s
  | ClickVideo => toggleVideo s
  | ClickRetry n => retryConnection n s
  end.

Definition step (e : Event) (s : State) : State :=
  if offered_by_ui e s then runEffects (handle e s) else s.

Definition run (es : list Event) (s : State) : State :=
  foldl (λ s e, step e s) s es.

(** The states the component can be in: those a sequence of events leads to
    from the first render with its effect run. *)
Definition reachable (s : State) : Prop :=
  ∃ username n0 es, n0 < 1000 ∧ s = run es (mount username n0).

(** * Vocabulary of the properties *)

(** ** Some states of the component *)

(** A stream of one audio and one video track, as [getUserMedia] grants it
    for [{video: true, audio: true}]. *)
Definition camera : list MediaStreamTrack :=
  [MkTrack AudioTrack true false; MkTrack VideoTrack true false].

(** The component after it connected as [user_42], was called by [alice] and
    answered with [camera]. *)
Definition in_call : State :=
  run [PeerOpen 0 "user_42"; PeerIncomingCall 0 "alice"; MediaGranted 0 camera true]
      (mount None 42).

(** The component connected as [user_42] while [alice] is calling and the
    camera permission is being asked. *)
Definition ringing : State :=
  run [PeerOpen 0 "user_42"; PeerIncomingCall 0 "alice"] (mount None 42).

(** The component connected as [user_42], asked to call [bob], while the
    camera permission is being asked. *)
Definition dialing : State :=
  run [PeerOpen 0 "user_42"; TypeRemoteId "bob"; ClickStartCall] (mount None 42).

(** The same once the camera is granted and [bob] is being called. *)
Definition calling : State := run [MediaGranted 0 camera true] dialing.

(** [in_call] after [bob] called too and was answered with a second
    [camera] stream. *)
Definition second_call : State :=
  run [PeerIncomingCall 0 "bob"; MediaGranted 1 camera true] in_call.

(** The component on its first connection attempt as [user_42], after a
    signaling error. *)
Definition failed : State :=
  run [PeerError 0 "network" "Lost connection to server."] (mount None 42).

(** ** Predicates *)

(** [connection.close()] on the connection [k]. *)
Definition closeConn (k : MediaConnection) : MediaConnection :=
  MkConn (remote k) (offered k) true (listeners k).

(** No connection, no local stream, empty video surfaces, and the flags and
    the remote id at their defaults. *)
Definition idle (s : State) : Prop :=
  connectionRef (refs s) = None
  ∧ localStreamRef (refs s) = None
  ∧ localVideoRef (refs s) = set_srcObject None (localVideoRef (refs s))
  ∧ remoteVideoRef (refs s) = set_srcObject None (remoteVideoRef (refs s))
  ∧ callActive (hooks s) = false
  ∧ isMuted (hooks s) = false
  ∧ isVideoOff (hooks s) = false
  ∧ remotePeerId (hooks s) = "".

(** [t'] is [t] with [enabled] negated if [t] is of kind [k], and [t]
    otherwise. *)
Definition flipped (k : TrackKind) (t t' : MediaStreamTrack) : Prop :=
  kind t' = kind t
  ∧ ended t' = ended t
  ∧ enabled t' = if decide (kind t = k) then negb (enabled t) else enabled t.

(** The four classes of signaling errors of lines 118-151. *)
Definition classify (type message : string) : Diagnostic :=
  if bool_decide (type = "network" ∨ type = "server-error" ∨ type = "socket-error")
  then NetworkOrServer type message
  else if bool_decide (type = "unavailable-id") then IdInUse
  else if bool_decide (type = "browser-incompatible") then BrowserIncompatible
  else Unknown type message.

(** Request [i] awaits its answer; [k] is what will run then. *)
Definition pending (i : nat) (video : bool) (k : Continuation) (s : State) : Prop :=
  requests (store s) !! i = Some (MkRequest video false k).

(** [call.answer(stream)] and the ['stream'] listener on connection [k]. *)
Definition answered (sid : nat) (k : MediaConnection) : MediaConnection :=
  MkConn (remote k) (Some sid) (closed k) IncomingListeners.

(** The effect has run for the current [actualUsername]. *)
Definition in_sync (s : State) : Prop :=
  effectDeps s = Some (actualUsername (hooks s)).

(** Timers are created armed and are only ever disarmed: every timer of [a]
    is in [b], and is still disarmed there if it was in [a]. *)
Definition timers_evolve (a b : list Timer) : Prop :=
  ∀ t k, a !! t = Some k →
    ∃ k', b !! t = Some k' ∧ (armed k = false → armed k' = false).

(** Connection [c] exists and no stream was passed to it. *)
Definition unanswered (c : nat) (l : list MediaConnection) : Prop :=
  ∃ k, l !! c = Some k ∧ offered k = None.

(** No [getUserMedia] promise that is still to settle would answer [c]. *)
Definition not_awaited (c : nat) (l : list MediaRequest) : Prop :=
  ∀ j q, l !! j = Some q → settled q = false →
    continuation q ≠ IncomingFirst c ∧ continuation q ≠ IncomingFallback c.

(** Nothing can answer [c] any more. *)
Definition abandoned (c : nat) (s : State) : Prop :=
  unanswered c (connections (store s)) ∧ not_awaited c (requests (store s)).

(** Request [q], once granted, answers incoming call [c]. *)
Definition targets (q : MediaRequest) (c : nat) : Prop :=
  continuation q = IncomingFirst c ∨ continuation q = IncomingFallback c.

(** Every request still to settle for an incoming call belongs to a call
    that was not answered, and is the only such request for it. *)
Definition tidy_lists (cns : list MediaConnection) (rqs : list MediaRequest) : Prop :=
  ∀ i q c, rqs !! i = Some q → settled q = false → targets q c →
    unanswered c cns
    ∧ ∀ j q', rqs !! j = Some q' → settled q' = false → targets q' c → j = i.

Definition tidy (s : State) : Prop :=
  tidy_lists (connections (store s)) (requests (store s)).

(** A stream with a track that is not stopped still captures. *)
Definition live (tracks : list MediaStreamTrack) : bool :=
  existsb (λ t, negb (ended t)) tracks.

(** The streams of the store that still capture. *)
Definition liveStreams (s : State) : list nat :=
  omap id (imap (λ i tracks, if live tracks then Some i else None)
                (streams (store s))).

(** The connections of the store that carry a local stream and were not
    closed. *)
Definition openCalls (s : State) : list nat :=
  omap id (imap (λ i k, match offered k with
                        | Some _ => if closed k then None else Some i
                        | None => None
                        end)
                (connections (store s))).

(** ** Vocabulary of the further properties *)

(** What an event may do to the connection status. *)
Definition status_after (e : Event) (v : ConnectionStatus) : Prop :=
  match e with
  | PeerOpen _ _ => v = connected
  | PeerError _ _ _ | TimerFires _ => v = error
  | PeerDisconnected _ | PeerClose _ => v = disconnected
  | ClickRetry _ => v = connecting
  | _ => False
  end.

(** What an event may do to the call-active flag. *)
Definition callActive_after (e : Event) (v : bool) : Prop :=
  match e with
  | MediaGranted _ _ _ => v = true
  | ClickEndCall | ConnClosed _ | ConnError _ _ | TimerFires _ => v = false
  | _ => False
  end.

(** The events of the signaling connection other than an incoming call. *)
Definition signaling (e : Event) : bool :=
  match e with
  | PeerOpen _ _ | PeerError _ _ _ | PeerDisconnected _ | PeerClose _
  | PeerConnection _ => true
  | _ => false
  end.

(** Every peer that was not destroyed is the one in the [peer] cell. *)
Definition one_live_peer (s : State) : Prop :=
  ∀ p k, peers (store s) !! p = Some k → destroyed k = false →
    peer (hooks s) = Some p.

(** An outgoing continuation holds a peer and a non-empty remote id. *)
Definition dialable (k : Continuation) : Prop :=
  match k with
  | OutgoingFirst p0 r0 | OutgoingFallback p0 r0 => p0 ≠ None ∧ r0 ≠ ""
  | _ => True
  end.

Definition all_dialable (l : list MediaRequest) : Prop :=
  ∀ i q, l !! i = Some q → dialable (continuation q).

(** Every object of [a] is in [b] at the same index, related by [R]. *)
Definition evolves {A : Type} (R : A → A → Prop) (a b : list A) : Prop :=
  ∀ i x, a !! i = Some x → ∃ y, b !! i = Some y ∧ R x y.

(** A track keeps its kind and, once stopped, stays stopped. *)
Definition track_ages (t t' : MediaStreamTrack) : Prop :=
  kind t' = kind t ∧ (ended t = true → ended t' = true).

(** A connection keeps its remote side and, once closed, stays closed. *)
Definition conn_ages (k k' : MediaConnection) : Prop :=
  remote k' = remote k ∧ (closed k = true → closed k' = true).

(** A peer keeps its id and, once destroyed, stays destroyed. *)
Definition peer_ages (k k' : Peer) : Prop :=
  requestedId k' = requestedId k ∧ (destroyed k = true → destroyed k' = true).

Definition store_ages (a b : Store) : Prop :=
  evolves (Forall2 track_ages) (streams a) (streams b)
  ∧ evolves conn_ages (connections a) (connections b)
  ∧ evolves peer_ages (peers a) (peers b).

(** A stream of one audio track, as [getUserMedia] grants it for
    [{video: false, audio: true}]. *)
Definition microphone : list MediaStreamTrack := [MkTrack AudioTrack true false].

(** [dialing] after the camera was refused and the microphone is asked. *)
Definition dialing_audio : State := run [MediaDenied 0] dialing.

(** What a video ref shows afterwards: if an element was mounted before,
    one is mounted after and its [srcObject] is [x]; if none was, none is. *)
Definition shows (before after : option HTMLVideoElement) (x : option StreamRef)
  : Prop :=
  match before with
  | Some _ => ∃ v, after = Some v ∧ srcObject v = x
  | None => after = None
  end.

(** [calling] when [carol] calls in before [bob] has answered. *)
Definition stolen : State := run [PeerIncomingCall 0 "carol"] calling.

(** While a call is active there is a local stream. *)
Definition active_has_stream (s : State) : Prop :=
  callActive (hooks s) = true → is_Some (localStreamRef (refs s)).

(** * Properties *)

(** Unfolds the handlers, the field updates and the projections, call by
    value, so that a handler applied to a state given by its fields becomes
    the state it returns. *)
Ltac fields :=
  cbv [endCall close stopTracks clearTimeout setTimeout destroy cleanup
    answer listen handleIncomingCall getUserMedia settle attachRemote
    setActualUsername setPeerId setRemotePeerId setPeer setCallActive
    setIsMuted setIsVideoOff setConnectionStatus set_stableIdRef
    set_localVideoRef set_remoteVideoRef set_localStreamRef set_connectionRef
    with_streams with_connections with_peers with_timers with_requests
    alert log act with_hooks with_refs with_store with_out with_effect
    hooks refs store out effectDeps effectCleanup
    actualUsername peerId remotePeerId peer callActive isMuted isVideoOff
    connectionStatus stableIdRef localVideoRef remoteVideoRef localStreamRef
    connectionRef streams connections peers timers requests alerts console
    actions] in *.

(** The same with the handlers that dispatch on an object of the store. *)
Ltac handlers :=
  cbv [onOpen onCall onDisconnected onClose onConnection makeOutgoingCall
    mediaGranted mediaDenied onStream onConnClose onConnError noRemoteStream
    connectionTimedOut callTimedOut timerFires startCall
    wantVideo settled continuation delay armed callback
    remote offered closed listeners requestedId destroyed openTimeout
    srcObject set_srcObject] in *;
  fields.

(** Reduces a projection of an updated state to the projection of the state
    or to the new value, without opening the state. *)
Ltac proj :=
  cbn [setActualUsername setPeerId setRemotePeerId setPeer setCallActive
    setIsMuted setIsVideoOff setConnectionStatus set_stableIdRef
    set_localVideoRef set_remoteVideoRef set_localStreamRef set_connectionRef
    with_streams with_connections with_peers with_timers with_requests
    alert log act with_hooks with_refs with_store with_out with_effect
    hooks refs store out effectDeps effectCleanup
    actualUsername peerId remotePeerId peer callActive isMuted isVideoOff
    connectionStatus stableIdRef localVideoRef remoteVideoRef localStreamRef
    connectionRef streams connections peers timers requests alerts console
    actions fst snd] in *.

Ltac unfold_handlers :=
  unfold handle, ifPeer, onError, toggleMute, toggleVideo, retryConnection,
    onOpen, onCall, onDisconnected, onClose, onConnection, makeOutgoingCall,
    mediaGranted, mediaDenied, onStream, onConnClose, onConnError,
    connectionTimedOut, callTimedOut, timerFires, startCall,
    endCall, close, stopTracks, clearTimeout, setTimeout, destroy, cleanup,
    runEffects, initEffect,
    answer, listen, handleIncomingCall, getUserMedia, settle, attachRemote in *.

(** For a projection of the state a handler returns: unfolds the handlers,
    splits on what they dispatch on and reduces the projections. *)
Ltac cases :=
  repeat (first [progress unfold_handlers | case_match]; proj).

Ltac open_state s :=
  destruct s as [[au pid rp pr ca im iv cs] [sir lv rv ls cr] dep cl
                 [stv cns prs tms rqs] [al co ac]].

(** ** Ending a call *)

Lemma set_srcObject_None (e : option HTMLVideoElement) x :
  set_srcObject None e = Some x → srcObject x = None.
Proof. destruct e; [intros [= <-]|]; done. Qed.

Lemma endCall_post (s : State) :
  let s' := endCall s in
  connectionRef (refs s') = None
  ∧ localStreamRef (refs s') = None
  ∧ (∀ c, connectionRef (refs s) = Some c →
       connections (store s') !! c = closeConn <$> connections (store s) !! c)
  ∧ (∀ sid, localStreamRef (refs s) = Some sid →
       streams (store s') !! sid = fmap stop <$> streams (store s) !! sid)
  ∧ localVideoRef (refs s') = set_srcObject None (localVideoRef (refs s))
  ∧ remoteVideoRef (refs s') = set_srcObject None (remoteVideoRef (refs s))
  ∧ callActive (hooks s') = false
  ∧ isMuted (hooks s') = false
  ∧ isVideoOff (hooks s') = false
  ∧ remotePeerId (hooks s') = "".
Proof.
  open_state s.
  destruct cr as [c|], ls as [sd|]; try destruct (stv !! sd) eqn:E;
    fields; rewrite ?E; repeat split; try done; intros ? [= <-];
    rewrite ?list_lookup_alter_eq, ?E; done.
Qed.

Lemma endCall_idle (s : State) : idle (endCall s).
Proof.
  destruct (endCall_post s) as (H1 & H2 & _ & _ & H5 & H6 & H7 & H8 & H9 & H10).
  unfold idle. cbv zeta in *. rewrite H5, H6.
  repeat split; try done.
  - by destruct (localVideoRef (refs s)).
  - by destruct (remoteVideoRef (refs s)).
Qed.

Lemma endCall_when_idle (s : State) : idle s → endCall s = s.
Proof.
  open_state s. unfold idle; fields.
  intros (-> & -> & Hl & Hr & -> & -> & -> & ->).
  by rewrite <- Hl, <- Hr.
Qed.

(** Without a connection and a local stream, [endCall] calls nothing in the
    browser or the library. *)
Lemma endCall_no_handles (s : State) :
  connectionRef (refs s) = None → localStreamRef (refs s) = None →
  store (endCall s) = store s ∧ out (endCall s) = out s.
Proof.
  open_state s. fields. by intros -> ->.
Qed.

Lemma endCall_frame (s : State) :
  let s' := endCall s in
  actualUsername (hooks s') = actualUsername (hooks s)
  ∧ peerId (hooks s') = peerId (hooks s)
  ∧ peer (hooks s') = peer (hooks s)
  ∧ connectionStatus (hooks s') = connectionStatus (hooks s)
  ∧ stableIdRef (refs s') = stableIdRef (refs s)
  ∧ effectDeps s' = effectDeps s
  ∧ effectCleanup s' = effectCleanup s
  ∧ peers (store s') = peers (store s)
  ∧ timers (store s') = timers (store s)
  ∧ requests (store s') = requests (store s)
  ∧ alerts (out s') = alerts (out s)
  ∧ console (out s') = console (out s).
Proof.
  open_state s.
  destruct cr as [c|], ls as [sd|]; try destruct (stv !! sd) eqn:E;
    fields; rewrite ?E; done.
Qed.

(** C1: whatever the state before (a call active, a call pending, no call),
    after [endCall] the connection handle is null, every track of what was
    the local stream is stopped, the local stream handle is null, the two
    video surfaces show nothing, the call is not active and the mute and
    video-off flags are false. *)
Theorem endCall_releases_everything (s : State) :
  let s' := endCall s in
  connectionRef (refs s') = None
  ∧ (∀ sid tracks,
       localStreamRef (refs s) = Some sid →
       streams (store s) !! sid = Some tracks →
       ∃ tracks', streams (store s') !! sid = Some tracks'
                  ∧ length tracks' = length tracks
                  ∧ ∀ t, t ∈ tracks' → ended t = true)
  ∧ localStreamRef (refs s') = None
  ∧ (∀ v, localVideoRef (refs s') = Some v → srcObject v = None)
  ∧ (∀ v, remoteVideoRef (refs s') = Some v → srcObject v = None)
  ∧ callActive (hooks s') = false
  ∧ isMuted (hooks s') = false
  ∧ isVideoOff (hooks s') = false.
Proof.
  destruct (endCall_post s) as (H1 & H2 & _ & H4 & H5 & H6 & H7 & H8 & H9 & _).
  cbv zeta in *. repeat split; try done.
  - intros sid tracks Hs Ht. exists (stop <$> tracks).
    rewrite (H4 sid Hs), Ht, length_fmap. repeat split; try done.
    intros t Ht'. apply list_elem_of_fmap in Ht' as (t0 & -> & _). done.
  - intros v. rewrite H5. by apply set_srcObject_None.
  - intros v. rewrite H6. by apply set_srcObject_None.
Qed.

Lemma endCall_releases_everything_witness :
  localStreamRef (refs in_call) = Some 0
  ∧ streams (store in_call) !! 0 = Some camera
  ∧ ∃ tracks', streams (store (endCall in_call)) !! 0 = Some tracks'
               ∧ length tracks' = length camera
               ∧ ∀ t, t ∈ tracks' → ended t = true.
Proof.
  assert (Hl : localStreamRef (refs in_call) = Some 0) by (vm_compute; reflexivity).
  assert (Hs : streams (store in_call) !! 0 = Some camera) by (vm_compute; reflexivity).
  split; [exact Hl|]. split; [exact Hs|].
  exact (proj1 (proj2 (endCall_releases_everything in_call)) 0 camera Hl Hs).
Defined.

(** C2: [endCall] is idempotent, and with no connection and no local stream
    it closes and stops nothing and leaves the reset configuration: twice is
    once on the whole state, the log of library calls included; with both
    handles null the store and the output are untouched and the result is
    idle; on an idle state it changes nothing. *)
Theorem endCall_idempotent (s : State) :
  endCall (endCall s) = endCall s
  ∧ (connectionRef (refs s) = None → localStreamRef (refs s) = None →
       store (endCall s) = store s
       ∧ actions (out (endCall s)) = actions (out s)
       ∧ idle (endCall s))
  ∧ (idle s → endCall s = s).
Proof.
  split; [|split].
  - apply endCall_when_idle, endCall_idle.
  - intros Hc Hl. destruct (endCall_no_handles s Hc Hl) as [-> ->].
    repeat split; try done; apply endCall_idle.
  - apply endCall_when_idle.
Qed.

Lemma endCall_idempotent_witness :
  store (endCall (mount None 42)) = store (mount None 42)
  ∧ actions (out (endCall (mount None 42))) = actions (out (mount None 42))
  ∧ idle (endCall (mount None 42)).
Proof.
  apply (proj1 (proj2 (endCall_idempotent (mount None 42))));
    vm_compute; reflexivity.
Defined.

(** C10: [endCall] also empties the remote id, so that a call cannot be
    started before an id is entered again (the start button is disabled and
    [startCall] returns at once); beyond the connection handle, the local
    stream, the video surfaces, the call-active, mute and video-off flags and
    the remote id, it leaves every state cell and ref as it was, and the
    effect bookkeeping, the peers, the timers, the media requests and the
    alerts too. *)
Theorem endCall_clears_remote_id (s : State) :
  let s' := endCall s in
  remotePeerId (hooks s') = ""
  ∧ offered_by_ui ClickStartCall s' = false
  ∧ startCall s' = s'
  ∧ actualUsername (hooks s') = actualUsername (hooks s)
  ∧ peerId (hooks s') = peerId (hooks s)
  ∧ peer (hooks s') = peer (hooks s)
  ∧ connectionStatus (hooks s') = connectionStatus (hooks s)
  ∧ stableIdRef (refs s') = stableIdRef (refs s)
  ∧ effectDeps s' = effectDeps s
  ∧ effectCleanup s' = effectCleanup s
  ∧ peers (store s') = peers (store s)
  ∧ timers (store s') = timers (store s)
  ∧ requests (store s') = requests (store s)
  ∧ alerts (out s') = alerts (out s).
Proof.
  destruct (endCall_post s) as (_ & _ & _ & _ & _ & _ & H7 & _ & _ & H10).
  destruct (endCall_frame s) as (F1 & F2 & F3 & F4 & F5 & F6 & F7 & F8 & F9 & F10 & F11 & _).
  cbv zeta in *. split; [done|]. split; [|split]; [| |by repeat split].
  - unfold offered_by_ui; cbv zeta. rewrite H7, H10. reflexivity.
  - unfold startCall; cbv zeta. rewrite H10.
    rewrite bool_decide_eq_true_2; [done | by right].
Qed.

(** ** Mute and video toggles *)

Lemma flipKind_flipped (k : TrackKind) (t : MediaStreamTrack) :
  flipped k t (flipKind k t).
Proof. unfold flipped, flipKind. by destruct (decide (kind t = k)). Qed.

Lemma flip_tracks (k : TrackKind) (tracks : list MediaStreamTrack) :
  length (flipKind k <$> tracks) = length tracks
  ∧ ∀ j t, tracks !! j = Some t →
      ∃ t', (flipKind k <$> tracks) !! j = Some t' ∧ flipped k t t'.
Proof.
  split; [apply length_fmap|].
  intros j t Hj. exists (flipKind k t).
  rewrite list_lookup_fmap, Hj. split; [done | apply flipKind_flipped].
Qed.

(** C9: with a local stream, [toggleMute] negates [enabled] on each of its
    audio tracks and [toggleVideo] on each of its video tracks, and nothing
    else of a track or of another stream changes; without a local stream both
    leave the state as it is. *)
Theorem toggles_flip_enabled (s : State) :
  (∀ sid tracks,
     localStreamRef (refs s) = Some sid →
     streams (store s) !! sid = Some tracks →
     (∃ tracks',
        streams (store (toggleMute s)) !! sid = Some tracks'
        ∧ length tracks' = length tracks
        ∧ ∀ j t, tracks !! j = Some t →
            ∃ t', tracks' !! j = Some t' ∧ flipped AudioTrack t t')
     ∧ (∃ tracks',
          streams (store (toggleVideo s)) !! sid = Some tracks'
          ∧ length tracks' = length tracks
          ∧ ∀ j t, tracks !! j = Some t →
              ∃ t', tracks' !! j = Some t' ∧ flipped VideoTrack t t')
     ∧ ∀ other, other ≠ sid →
         streams (store (toggleMute s)) !! other = streams (store s) !! other
         ∧ streams (store (toggleVideo s)) !! other = streams (store s) !! other)
  ∧ (localStreamRef (refs s) = None → toggleMute s = s ∧ toggleVideo s = s).
Proof.
  open_state s. unfold toggleMute, toggleVideo. fields. split.
  - intros sid tracks -> Ht. fields. split; [|split].
    + exists (flipKind AudioTrack <$> tracks).
      rewrite list_lookup_alter_eq, Ht. split; [done | apply flip_tracks].
    + exists (flipKind VideoTrack <$> tracks).
      rewrite list_lookup_alter_eq, Ht. split; [done | apply flip_tracks].
    + intros other Hne. by rewrite !list_lookup_alter_ne.
  - by intros ->.
Qed.

Lemma toggles_flip_enabled_witness :
  (∃ tracks',
     streams (store (toggleMute in_call)) !! 0 = Some tracks'
     ∧ length tracks' = length camera
     ∧ ∀ j t, camera !! j = Some t →
         ∃ t', tracks' !! j = Some t' ∧ flipped AudioTrack t t')
  ∧ toggleMute (mount None 42) = mount None 42.
Proof.
  assert (Hl : localStreamRef (refs in_call) = Some 0) by (vm_compute; reflexivity).
  assert (Hs : streams (store in_call) !! 0 = Some camera) by (vm_compute; reflexivity).
  assert (Hn : localStreamRef (refs (mount None 42)) = None) by (vm_compute; reflexivity).
  exact (conj (proj1 (proj1 (toggles_flip_enabled in_call) 0 camera Hl Hs))
              (proj1 (proj2 (toggles_flip_enabled (mount None 42)) Hn))).
Defined.

(** ** Signaling errors *)

Lemma onError_classified (type message : string) (s : State) :
  onError type message s =
  setConnectionStatus error
    (log (Troubleshooting (classify type message)) (log (ErrPeer type message) s)).
Proof.
  unfold onError, classify. by repeat case_bool_decide.
Qed.

(** C8: a signaling error of any type sets the connection status to [error];
    the type only selects the troubleshooting text on the console: states
    reached from the same state by errors of two types have the same state
    cells, refs, store, alerts and library calls. *)
Theorem signaling_error_sets_error (type message : string) (s : State) :
  connectionStatus (hooks (onError type message s)) = error
  ∧ console (out (onError type message s)) =
      console (out s) ++ [ErrPeer type message; Troubleshooting (classify type message)]
  ∧ ∀ type' message',
      hooks (onError type' message' s) = hooks (onError type message s)
      ∧ refs (onError type' message' s) = refs (onError type message s)
      ∧ store (onError type' message' s) = store (onError type message s)
      ∧ effectDeps (onError type' message' s) = effectDeps (onError type message s)
      ∧ effectCleanup (onError type' message' s) = effectCleanup (onError type message s)
      ∧ alerts (out (onError type' message' s)) = alerts (out (onError type message s))
      ∧ actions (out (onError type' message' s)) = actions (out (onError type message s)).
Proof.
  split; [|split].
  - rewrite onError_classified. by open_state s.
  - rewrite onError_classified. open_state s. fields. by rewrite <- app_assoc.
  - intros type' message'. rewrite !onError_classified. by open_state s.
Qed.

(** ** Invariants of the event loop *)

(** *** The effect follows [actualUsername] *)

Lemma runEffects_in_sync (s : State) : in_sync (runEffects s).
Proof. unfold in_sync. cases; done. Qed.

Lemma reachable_in_sync (s : State) : reachable s → in_sync s.
Proof.
  intros (username & n0 & es & _ & ->).
  generalize (runEffects_in_sync (initialState username n0)).
  fold (mount username n0). generalize (mount username n0).
  induction es as [|e es IH]; intros s H; [done|].
  apply IH. unfold step. destruct (offered_by_ui e s); [|done].
  apply runEffects_in_sync.
Qed.

(** Only a retry changes what the effect depends on: for every other event
    the turn of the event loop is the handler alone. *)
Lemma step_is_handle (e : Event) (s : State) :
  in_sync s → offered_by_ui e s = true → (∀ n, e ≠ ClickRetry n) →
  step e s = handle e s.
Proof.
  unfold in_sync, step. intros Hs -> Hr. unfold runEffects.
  assert (effectDeps (handle e s) = effectDeps s
          ∧ actualUsername (hooks (handle e s)) = actualUsername (hooks s))
    as [-> ->].
  { destruct e; cases; try done; by destruct (Hr n). }
  by rewrite decide_True.
Qed.

(** *** A cleared timer stays cleared *)

Lemma timers_evolve_refl (l : list Timer) : timers_evolve l l.
Proof. intros t k H. eauto. Qed.

Lemma timers_evolve_trans (a b c : list Timer) :
  timers_evolve a b → timers_evolve b c → timers_evolve a c.
Proof.
  intros H1 H2 t k H. destruct (H1 t k H) as (k' & Hk' & Ha).
  destruct (H2 t k' Hk') as (k'' & Hk'' & Ha'). eauto.
Qed.

Lemma timers_evolve_clear (a b : list Timer) (u : nat) :
  timers_evolve a b →
  timers_evolve a (alter (λ k, MkTimer (delay k) false (callback k)) u b).
Proof.
  intros H1 t k H. destruct (H1 t k H) as (k' & Hk' & Ha).
  destruct (decide (u = t)) as [->|Hne].
  - rewrite list_lookup_alter_eq, Hk'. simpl. eauto.
  - rewrite list_lookup_alter_ne by done. eauto.
Qed.

Lemma timers_evolve_set (a b x : list Timer) :
  timers_evolve a b → timers_evolve a (b ++ x).
Proof.
  intros H1 t k H. destruct (H1 t k H) as (k' & Hk' & Ha).
  exists k'. split; [by apply lookup_app_l_Some | done].
Qed.

Create HintDb timers.
#[local] Hint Resolve timers_evolve_refl timers_evolve_clear timers_evolve_set : timers.

Lemma handle_timers (e : Event) (s : State) :
  timers_evolve (timers (store s)) (timers (store (handle e s))).
Proof. destruct e; cases; eauto 10 with timers. Qed.

Lemma runEffects_timers (s : State) :
  timers_evolve (timers (store s)) (timers (store (runEffects s))).
Proof. cases; eauto 10 with timers. Qed.

Lemma step_timers (e : Event) (s : State) :
  timers_evolve (timers (store s)) (timers (store (step e s))).
Proof.
  unfold step. destruct (offered_by_ui e s); [|apply timers_evolve_refl].
  eapply timers_evolve_trans; [apply handle_timers | apply runEffects_timers].
Qed.

Lemma run_timers (es : list Event) (s : State) :
  timers_evolve (timers (store s)) (timers (store (run es s))).
Proof.
  revert s. induction es as [|e es IH]; intros s; [apply timers_evolve_refl|].
  eapply timers_evolve_trans; [apply (step_timers e) | apply IH].
Qed.

(** A timer that was cleared, or has fired, does nothing however late its
    delay elapses. *)
Lemma disarmed_forever (t : nat) (k : Timer) (es : list Event) (s : State) :
  timers (store s) !! t = Some k → armed k = false →
  timerFires t (run es s) = run es s.
Proof.
  intros Ht Ha. destruct (run_timers es s t k Ht) as (k' & Hk' & Ha').
  unfold timerFires. by rewrite Hk', (Ha' Ha).
Qed.

(** *** A call that nothing awaits stays unanswered *)

Lemma unanswered_app (c : nat) (l x : list MediaConnection) :
  unanswered c l → unanswered c (l ++ x).
Proof. intros (k & Hk & Ho). exists k. split; [by apply lookup_app_l_Some | done]. Qed.

Lemma unanswered_alter (c c' : nat) (f : MediaConnection → MediaConnection)
    (l : list MediaConnection) :
  (∀ k, offered (f k) = offered k) → unanswered c l → unanswered c (alter f c' l).
Proof.
  intros Hf (k & Hk & Ho). destruct (decide (c' = c)) as [->|Hne].
  - exists (f k). rewrite list_lookup_alter_eq, Hk, Hf. done.
  - exists k. by rewrite list_lookup_alter_ne.
Qed.

Lemma unanswered_alter_ne (c c' : nat) (f : MediaConnection → MediaConnection)
    (l : list MediaConnection) :
  c' ≠ c → unanswered c l → unanswered c (alter f c' l).
Proof. intros Hne (k & Hk & Ho). exists k. by rewrite list_lookup_alter_ne. Qed.

Lemma unanswered_length (c : nat) (l : list MediaConnection) :
  unanswered c l → length l ≠ c.
Proof. intros (k & Hk%lookup_lt_Some & _). lia. Qed.

Lemma not_awaited_settle (c i : nat) (l : list MediaRequest) :
  not_awaited c l →
  not_awaited c (alter (λ q, MkRequest (wantVideo q) true (continuation q)) i l).
Proof.
  intros H j q Hj Hs. destruct (decide (i = j)) as [->|Hne].
  - rewrite list_lookup_alter_eq in Hj. destruct (l !! j); simplify_eq/=.
  - rewrite list_lookup_alter_ne in Hj by done. eauto.
Qed.

Lemma not_awaited_request (c : nat) (v : bool) (k : Continuation)
    (l : list MediaRequest) :
  k ≠ IncomingFirst c → k ≠ IncomingFallback c →
  not_awaited c l → not_awaited c (l ++ [MkRequest v false k]).
Proof.
  intros H1 H2 H j q Hj Hs.
  apply lookup_app_Some in Hj as [Hj | [_ Hj]]; [eauto|].
  apply list_lookup_singleton_Some in Hj as [_ <-]. done.
Qed.

Lemma awaited_other (c c' j : nat) (q : MediaRequest) (l : list MediaRequest) :
  not_awaited c l → l !! j = Some q → settled q = false →
  continuation q = IncomingFirst c' ∨ continuation q = IncomingFallback c' →
  c' ≠ c.
Proof.
  intros H Hj Hs Hk ->. destruct (H j q Hj Hs) as [H1 H2].
  destruct Hk; done.
Qed.

Create HintDb calls.
#[local] Hint Resolve unanswered_app unanswered_alter unanswered_alter_ne
  not_awaited_settle not_awaited_request : calls.

Lemma handle_abandoned (c : nat) (e : Event) (s : State) :
  abandoned c s → abandoned c (handle e s).
Proof.
  unfold abandoned. intros [Hu Ha].
  destruct e; cases; (split; [try (by eauto 10 with calls) | try (by eauto 10 with calls)]).
  all: try match goal with
    | Hq : _ !! _ = Some ?q, Hs : settled ?q = false,
      Hk : continuation ?q = IncomingFirst ?c' |- _ =>
        assert (c' ≠ c) by (eapply (awaited_other c c' _ q); eauto)
    | Hq : _ !! _ = Some ?q, Hs : settled ?q = false,
      Hk : continuation ?q = IncomingFallback ?c' |- _ =>
        assert (c' ≠ c) by (eapply (awaited_other c c' _ q); eauto)
    end.
  - apply not_awaited_request; [|done..].
    intros [= E]. by apply unanswered_length in Hu.
  - by do 2 (apply unanswered_alter_ne; [done|]).
  - by do 2 (apply unanswered_alter_ne; [done|]).
  - apply not_awaited_request; [congruence..|]. by apply not_awaited_settle.
Qed.

Lemma runEffects_abandoned (c : nat) (s : State) :
  abandoned c s → abandoned c (runEffects s).
Proof. unfold abandoned. intros [Hu Ha]. cases; done. Qed.

Lemma run_abandoned (c : nat) (es : list Event) (s : State) :
  abandoned c s → abandoned c (run es s).
Proof.
  revert s. induction es as [|e es IH]; intros s H; [done|].
  apply IH. unfold step. destruct (offered_by_ui e s); [|done].
  by apply runEffects_abandoned, handle_abandoned.
Qed.

(** *** One pending request per unanswered call *)

Lemma lookup_settled (i j : nat) (q : MediaRequest) (l : list MediaRequest) :
  alter (λ q, MkRequest (wantVideo q) true (continuation q)) i l !! j = Some q →
  settled q = false → j ≠ i ∧ l !! j = Some q.
Proof.
  intros Hj Hs. destruct (decide (i = j)) as [->|Hne].
  - rewrite list_lookup_alter_eq in Hj. destruct (l !! j); simplify_eq/=.
  - rewrite list_lookup_alter_ne in Hj by done. done.
Qed.

Lemma tidy_conn_alter cns rqs c (f : MediaConnection → MediaConnection) :
  (∀ k, offered (f k) = offered k) →
  tidy_lists cns rqs → tidy_lists (alter f c cns) rqs.
Proof.
  intros Hf H i q c' Hi Hs Ht. destruct (H i q c' Hi Hs Ht) as [Hu Huniq].
  split; [by apply unanswered_alter | done].
Qed.

Lemma tidy_conn_app cns rqs x :
  tidy_lists cns rqs → tidy_lists (cns ++ x) rqs.
Proof.
  intros H i q c' Hi Hs Ht. destruct (H i q c' Hi Hs Ht) as [Hu Huniq].
  split; [by apply unanswered_app | done].
Qed.

Lemma tidy_settle cns rqs i :
  tidy_lists cns rqs →
  tidy_lists cns (alter (λ q, MkRequest (wantVideo q) true (continuation q)) i rqs).
Proof.
  intros H j q c Hj Hs Ht. destruct (lookup_settled _ _ _ _ Hj Hs) as [Hne Hj'].
  destruct (H j q c Hj' Hs Ht) as [Hu Huniq]. split; [done|].
  intros j' q' Hq' Hs' Ht'. destruct (lookup_settled _ _ _ _ Hq' Hs') as [_ Hq''].
  eauto.
Qed.

Lemma tidy_request cns rqs v k :
  (∀ c, k ≠ IncomingFirst c) → (∀ c, k ≠ IncomingFallback c) →
  tidy_lists cns rqs → tidy_lists cns (rqs ++ [MkRequest v false k]).
Proof.
  intros H1 H2 H.
  assert (Hold : ∀ j q c, (rqs ++ [MkRequest v false k]) !! j = Some q →
                   targets q c → rqs !! j = Some q).
  { intros j q c Hj Ht. apply lookup_app_Some in Hj as [Hj | [_ Hj]]; [done|].
    apply list_lookup_singleton_Some in Hj as [_ <-].
    destruct Ht as [Ht|Ht]; simpl in Ht; [by destruct (H1 c) | by destruct (H2 c)]. }
  intros i q c Hi Hs Ht. destruct (H i q c (Hold _ _ _ Hi Ht) Hs Ht) as [Hu Huniq].
  split; [done|]. intros j q' Hj Hs' Ht'. eauto.
Qed.

Lemma tidy_call cns rqs from :
  tidy_lists cns rqs →
  tidy_lists (cns ++ [MkConn from None false NoListeners])
             (rqs ++ [MkRequest true false (IncomingFirst (length cns))]).
Proof.
  intros H.
  assert (Hnew : ∀ j q, rqs !! j = Some q → settled q = false →
                   ¬ targets q (length cns)).
  { intros j q Hj Hs Ht. destruct (H j q _ Hj Hs Ht) as [Hu _].
    by apply unanswered_length in Hu. }
  intros i q c Hi Hs Ht.
  apply lookup_app_Some in Hi as [Hi | [Hlen Hi]].
  - destruct (H i q c Hi Hs Ht) as [Hu Huniq].
    split; [by apply unanswered_app|].
    intros j q' Hj Hs' Ht'.
    apply lookup_app_Some in Hj as [Hj | [_ Hj]]; [eauto|].
    apply list_lookup_singleton_Some in Hj as [_ <-].
    destruct Ht' as [Ht'|Ht']; simplify_eq/=. by destruct (Hnew i q Hi Hs).
  - apply list_lookup_singleton_Some in Hi as [Hi <-].
    destruct Ht as [Ht|Ht]; simplify_eq/=.
    split.
    + exists (MkConn from None false NoListeners). split; [|done].
      by rewrite list_lookup_middle.
    + intros j q' Hj Hs' Ht'.
      apply lookup_app_Some in Hj as [Hj | [Hlen' Hj]].
      * by destruct (Hnew j q' Hj Hs').
      * apply list_lookup_singleton_Some in Hj as [Hj _]. lia.
Qed.

Lemma tidy_fallback cns rqs i q c :
  rqs !! i = Some q → settled q = false → continuation q = IncomingFirst c →
  tidy_lists cns rqs →
  tidy_lists cns
    (alter (λ q, MkRequest (wantVideo q) true (continuation q)) i rqs
     ++ [MkRequest false false (IncomingFallback c)]).
Proof.
  intros Hi Hs Hk H. destruct (H i q c Hi Hs (or_introl Hk)) as [Hu Huniq].
  intros j q' c' Hj Hs' Ht.
  apply lookup_app_Some in Hj as [Hj | [Hlen Hj]].
  - destruct (lookup_settled _ _ _ _ Hj Hs') as [Hne Hj'].
    destruct (H j q' c' Hj' Hs' Ht) as [Hu' Huniq'].
    split; [done|]. intros j' q'' Hj'' Hs'' Ht''.
    apply lookup_app_Some in Hj'' as [Hj'' | [Hlen Hj'']].
    + destruct (lookup_settled _ _ _ _ Hj'' Hs'') as [_ Hj3]. eauto.
    + apply list_lookup_singleton_Some in Hj'' as [_ <-].
      destruct Ht'' as [Ht''|Ht'']; simplify_eq/=.
      destruct Hne. by apply (Huniq j q').
  - apply list_lookup_singleton_Some in Hj as [Hj <-].
    destruct Ht as [Ht|Ht]; simplify_eq/=.
    split; [done|]. intros j' q'' Hj'' Hs'' Ht''.
    apply lookup_app_Some in Hj'' as [Hj'' | [Hlen' Hj'']].
    + destruct (lookup_settled _ _ _ _ Hj'' Hs'') as [Hne Hj3].
      destruct Hne. by apply (Huniq j' q'').
    + apply list_lookup_singleton_Some in Hj'' as [Hj'' _]. lia.
Qed.

Lemma tidy_answer cns rqs i q c (f : MediaConnection → MediaConnection) :
  rqs !! i = Some q → settled q = false → targets q c →
  tidy_lists cns rqs →
  tidy_lists (alter f c cns)
    (alter (λ q, MkRequest (wantVideo q) true (continuation q)) i rqs).
Proof.
  intros Hi Hs Ht H. destruct (H i q c Hi Hs Ht) as [Hu Huniq].
  intros j q' c' Hj Hs' Ht'.
  destruct (lookup_settled _ _ _ _ Hj Hs') as [Hne Hj'].
  destruct (H j q' c' Hj' Hs' Ht') as [Hu' Huniq'].
  assert (c ≠ c') by (intros <-; destruct Hne; by apply (Huniq j q')).
  split; [by apply unanswered_alter_ne|].
  intros j' q'' Hj'' Hs'' Ht''.
  destruct (lookup_settled _ _ _ _ Hj'' Hs'') as [_ Hj3]. eauto.
Qed.

Create HintDb tidy.
#[local] Hint Resolve tidy_conn_alter tidy_conn_app tidy_settle tidy_request tidy_call : tidy.

Lemma handle_tidy (e : Event) (s : State) : tidy s → tidy (handle e s).
Proof.
  unfold tidy. intros H.
  destruct e; cases; try (by eauto 10 with tidy).
  - apply tidy_conn_alter; [done|].
    eapply tidy_answer; eauto. by left.
  - apply tidy_conn_alter; [done|].
    eapply tidy_answer; eauto. by right.
  - eapply tidy_fallback; eauto.
Qed.

Lemma runEffects_tidy (s : State) : tidy s → tidy (runEffects s).
Proof. unfold tidy. intros H. cases; done. Qed.

Lemma mount_tidy (username : option string) (n0 : nat) : tidy (mount username n0).
Proof.
  unfold tidy, mount, initialState.
  destruct username as [u|]; [destruct (decide (u = ""))|]; cases.
  all: by intros [|i] q c Hi.
Qed.

Lemma reachable_tidy (s : State) : reachable s → tidy s.
Proof.
  intros (username & n0 & es & _ & ->).
  generalize (mount_tidy username n0). generalize (mount username n0).
  induction es as [|e es IH]; intros s H; [done|].
  apply IH. unfold step. destruct (offered_by_ui e s); [|done].
  by apply runEffects_tidy, handle_tidy.
Qed.

(** ** Incoming calls *)

Lemma onCall_post (from : string) (s : State) :
  let c := length (connections (store s)) in
  let s' := onCall from s in
  connections (store s') !! c = Some (MkConn from None false NoListeners)
  ∧ pending (length (requests (store s))) true (IncomingFirst c) s'
  ∧ actions (out s') = actions (out s) ++ [GetUserMedia true true]
  ∧ alerts (out s') = alerts (out s)
  ∧ streams (store s') = streams (store s)
  ∧ localStreamRef (refs s') = localStreamRef (refs s)
  ∧ localVideoRef (refs s') = localVideoRef (refs s)
  ∧ remoteVideoRef (refs s') = remoteVideoRef (refs s)
  ∧ hooks s' = hooks s.
Proof.
  open_state s. unfold pending. handlers.
  repeat split; try done; by rewrite list_lookup_middle.
Qed.

Lemma first_denied_post (i c : nat) (s : State) :
  pending i true (IncomingFirst c) s →
  let s' := mediaDenied i s in
  pending (length (requests (store s))) false (IncomingFallback c) s'
  ∧ actions (out s') = actions (out s) ++ [GetUserMedia false true]
  ∧ alerts (out s') = alerts (out s)
  ∧ connections (store s') = connections (store s)
  ∧ streams (store s') = streams (store s)
  ∧ refs s' = refs s
  ∧ hooks s' = hooks s.
Proof.
  open_state s. unfold pending. handlers. intros ->.
  repeat split; try done.
  rewrite list_lookup_middle; [done|]. by rewrite length_alter.
Qed.

Lemma fallback_denied_post (i c : nat) (v : bool) (s : State) :
  pending i v (IncomingFallback c) s →
  let s' := mediaDenied i s in
  alerts (out s') =
    alerts (out s) ++ ["Could not access camera or microphone. Please check permissions."]
  ∧ actions (out s') = actions (out s)
  ∧ connections (store s') = connections (store s)
  ∧ streams (store s') = streams (store s)
  ∧ refs s' = refs s
  ∧ hooks s' = hooks s
  ∧ ∀ j q, requests (store s') !! j = Some q → settled q = false →
      j ≠ i ∧ requests (store s) !! j = Some q.
Proof.
  open_state s. unfold pending. handlers. intros Hi. rewrite Hi.
  repeat split; try done.
  - intros ->. rewrite list_lookup_alter_eq, Hi in H. by injection H as <-.
  - destruct (decide (i = j)) as [->|Hne].
    + rewrite list_lookup_alter_eq, Hi in H. by injection H as <-.
    + by rewrite list_lookup_alter_ne in H.
Qed.

Lemma granted_post (i c : nat) (v callOk : bool) (tracks : list MediaStreamTrack)
    (s : State) :
  pending i v (IncomingFirst c) s ∨ pending i v (IncomingFallback c) s →
  let sid := length (streams (store s)) in
  let s' := mediaGranted i tracks callOk s in
  streams (store s') !! sid = Some tracks
  ∧ localStreamRef (refs s') = Some sid
  ∧ localVideoRef (refs s') =
      set_srcObject (Some (Acquired sid)) (localVideoRef (refs s))
  ∧ actions (out s') = actions (out s) ++ [ConnAnswer c sid]
  ∧ connections (store s') !! c = answered sid <$> connections (store s) !! c
  ∧ callActive (hooks s') = true.
Proof.
  open_state s. unfold pending. handlers. intros [-> | ->].
  all: repeat split; try done; try by rewrite list_lookup_middle.
  all: rewrite !list_lookup_alter_eq; by destruct (cns !! c).
Qed.

Lemma incoming_stream_post (c rid : nat) (k : MediaConnection) (s : State) :
  connections (store s) !! c = Some k →
  listeners k = IncomingListeners →
  remoteVideoRef (refs (onStream c rid s)) =
    set_srcObject (Some (Received rid)) (remoteVideoRef (refs s)).
Proof.
  open_state s. destruct k as [r o cl' l]. handlers. by intros -> ->.
Qed.

Lemma denied_abandons (i c : nat) (v : bool) (s : State) :
  tidy s → pending i v (IncomingFallback c) s → abandoned c (mediaDenied i s).
Proof.
  intros H Hp. destruct (H i _ c Hp eq_refl (or_intror eq_refl)) as [Hu Huniq].
  destruct (fallback_denied_post i c v s Hp) as (_ & _ & H3 & _ & _ & _ & H7).
  cbv zeta in *. split; [by rewrite H3|].
  intros j q Hj Hs. destruct (H7 j q Hj Hs) as [Hne Hq].
  split; intros Hk; destruct Hne; apply (Huniq j q Hq Hs); [by left | by right].
Qed.

Lemma shows_set_srcObject (x : option StreamRef) (e : option HTMLVideoElement) :
  shows e (set_srcObject x e) x.
Proof. destruct e; cbn; [by eexists | done]. Qed.

Lemma stopped_tracks (tracks : list MediaStreamTrack)
    (o : option (list MediaStreamTrack)) :
  o = Some (stop <$> tracks) →
  ∃ tracks', o = Some tracks' ∧ length tracks' = length tracks
             ∧ ∀ t, t ∈ tracks' → ended t = true.
Proof.
  intros ->. exists (stop <$> tracks).
  split; [done|]. split; [apply length_fmap|].
  intros t Ht. by apply list_elem_of_fmap in Ht as (t0 & -> & _).
Qed.

(** C5: an incoming call first asks for video and audio; when that is denied
    it asks for audio alone; when that is denied too the user is alerted,
    [answer] is not called, no stream handle or video surface changes, and
    (in a state the component can reach) no later event answers the call;
    when either request is granted the call is answered with the new stream,
    which becomes the local stream and the [srcObject] of the mounted local
    video, and the remote stream becomes the [srcObject] of the mounted
    remote video when the connection delivers it. *)
Theorem incoming_call_media_fallback :
  (∀ from s,
     let c := length (connections (store s)) in
     let s' := onCall from s in
     connections (store s') !! c = Some (MkConn from None false NoListeners)
     ∧ pending (length (requests (store s))) true (IncomingFirst c) s'
     ∧ actions (out s') = actions (out s) ++ [GetUserMedia true true]
     ∧ alerts (out s') = alerts (out s)
     ∧ localStreamRef (refs s') = localStreamRef (refs s)
     ∧ localVideoRef (refs s') = localVideoRef (refs s)
     ∧ remoteVideoRef (refs s') = remoteVideoRef (refs s))
  ∧ (∀ i c s,
       pending i true (IncomingFirst c) s →
       let s' := mediaDenied i s in
       pending (length (requests (store s))) false (IncomingFallback c) s'
       ∧ actions (out s') = actions (out s) ++ [GetUserMedia false true]
       ∧ alerts (out s') = alerts (out s)
       ∧ connections (store s') = connections (store s)
       ∧ refs s' = refs s)
  ∧ (∀ i c v s,
       pending i v (IncomingFallback c) s →
       let s' := mediaDenied i s in
       alerts (out s') =
         alerts (out s) ++ ["Could not access camera or microphone. Please check permissions."]
       ∧ actions (out s') = actions (out s)
       ∧ connections (store s') = connections (store s)
       ∧ streams (store s') = streams (store s)
       ∧ refs s' = refs s
       ∧ hooks s' = hooks s
       ∧ (reachable s → ∀ es, unanswered c (connections (store (run es s')))))
  ∧ (∀ i c v tracks callOk s,
       pending i v (IncomingFirst c) s ∨ pending i v (IncomingFallback c) s →
       let sid := length (streams (store s)) in
       let s' := mediaGranted i tracks callOk s in
       streams (store s') !! sid = Some tracks
       ∧ localStreamRef (refs s') = Some sid
       ∧ shows (localVideoRef (refs s)) (localVideoRef (refs s'))
               (Some (Acquired sid))
       ∧ actions (out s') = actions (out s) ++ [ConnAnswer c sid]
       ∧ connections (store s') !! c = answered sid <$> connections (store s) !! c
       ∧ callActive (hooks s') = true)
  ∧ (∀ c k rid s,
       connections (store s) !! c = Some k →
       listeners k = IncomingListeners →
       shows (remoteVideoRef (refs s)) (remoteVideoRef (refs (onStream c rid s)))
             (Some (Received rid))).
Proof.
  split; [|split; [|split; [|split]]].
  - intros from s. destruct (onCall_post from s) as (H1 & H2 & H3 & H4 & _ & H6 & H7 & H8 & _).
    by repeat split.
  - intros i c s Hp. destruct (first_denied_post i c s Hp) as (H1 & H2 & H3 & H4 & _ & H6 & _).
    by repeat split.
  - intros i c v s Hp.
    destruct (fallback_denied_post i c v s Hp) as (H1 & H2 & H3 & H4 & H5 & H6 & H7).
    cbv zeta in *. repeat split; try done.
    intros Hr es. refine (proj1 (run_abandoned c es _ _)).
    apply (denied_abandons i c v); [by apply reachable_tidy | done].
  - intros i c v tracks callOk s Hp.
    destruct (granted_post i c v callOk tracks s Hp) as (H1 & H2 & H3 & H4 & H5 & H6).
    cbv zeta in *. rewrite H3. repeat split; try done.
    apply shows_set_srcObject.
  - intros c k rid s Hc Hl. rewrite (incoming_stream_post c rid k s Hc Hl).
    apply shows_set_srcObject.
Qed.

Lemma incoming_call_media_fallback_witness :
  let s1 := mediaDenied 0 ringing in
  let s2 := mediaDenied 1 s1 in
  (pending (length (requests (store ringing))) false (IncomingFallback 0) s1
   ∧ actions (out s1) = actions (out ringing) ++ [GetUserMedia false true])
  ∧ (alerts (out s2) =
       alerts (out s1) ++ ["Could not access camera or microphone. Please check permissions."]
     ∧ actions (out s2) = actions (out s1)
     ∧ ∀ es, unanswered 0 (connections (store (run es s2))))
  ∧ (localStreamRef (refs (mediaGranted 0 camera true ringing)) =
       Some (length (streams (store ringing)))
     ∧ shows (localVideoRef (refs ringing))
             (localVideoRef (refs (mediaGranted 0 camera true ringing)))
             (Some (Acquired (length (streams (store ringing))))))
  ∧ shows (remoteVideoRef (refs in_call)) (remoteVideoRef (refs (onStream 0 7 in_call)))
          (Some (Received 7)).
Proof.
  destruct incoming_call_media_fallback as (_ & Hfirst & Hboth & Hok & Hremote).
  assert (P0 : pending 0 true (IncomingFirst 0) ringing) by (vm_compute; reflexivity).
  assert (P1 : pending 1 false (IncomingFallback 0) (mediaDenied 0 ringing))
    by (vm_compute; reflexivity).
  assert (R : reachable (mediaDenied 0 ringing)).
  { exists None, 42,
      [PeerOpen 0 "user_42"; PeerIncomingCall 0 "alice"; MediaDenied 0].
    split; [lia | vm_compute; reflexivity]. }
  assert (C : connections (store in_call) !! 0 = Some (MkConn "alice" (Some 0) false IncomingListeners))
    by (vm_compute; reflexivity).
  intros s1 s2. split; [|split; [|split]].
  - destruct (Hfirst 0 0 ringing P0) as (H1 & H2 & _). exact (conj H1 H2).
  - destruct (Hboth 1 0 false s1 P1) as (H1 & H2 & _ & _ & _ & _ & H7).
    exact (conj H1 (conj H2 (H7 R))).
  - destruct (Hok 0 0 true camera true ringing (or_introl P0)) as (_ & H2 & H3 & _).
    exact (conj H2 H3).
  - exact (Hremote 0 _ 7 in_call C eq_refl).
Defined.

(** ** Outgoing calls *)

Lemma outgoing_granted_post (i p : nat) (v : bool) (r : string)
    (tracks : list MediaStreamTrack) (s : State) :
  pending i v (OutgoingFirst (Some p) r) s
  ∨ pending i v (OutgoingFallback (Some p) r) s →
  r ≠ "" →
  let sid := length (streams (store s)) in
  let c := length (connections (store s)) in
  let t := length (timers (store s)) in
  let s' := mediaGranted i tracks true s in
  timers (store s') = timers (store s) ++ [MkTimer 15000 true CallTimeout]
  ∧ connections (store s') =
      connections (store s) ++ [MkConn r (Some sid) false (OutgoingListeners t)]
  ∧ connectionRef (refs s') = Some c
  ∧ localStreamRef (refs s') = Some sid
  ∧ actions (out s') = actions (out s) ++ [PeerCall p r sid]
  ∧ callActive (hooks s') = true.
Proof.
  open_state s. unfold pending. handlers. intros Hp Hr.
  destruct Hp as [-> | ->]; handlers; rewrite (bool_decide_eq_false_2 _ Hr).
  all: repeat split; try done.
  all: rewrite alter_app_r_alt by done; by rewrite Nat.sub_diag.
Qed.

Lemma call_timeout_post (t : nat) (d : N) (s : State) :
  timers (store s) !! t = Some (MkTimer d true CallTimeout) →
  noRemoteStream s = true →
  timerFires t s =
    endCall (alert "Could not connect to peer. Please check the remote ID and try again."
                   (log ErrCallTimedOut (clearTimeout t s))).
Proof.
  intros Ht Hn. unfold timerFires. rewrite Ht. simpl.
  unfold callTimedOut.
  replace (noRemoteStream (clearTimeout t s)) with (noRemoteStream s); [by rewrite Hn|].
  by open_state s.
Qed.

Lemma outgoing_stream_post (c t rid : nat) (k : MediaConnection) (s : State) :
  connections (store s) !! c = Some k →
  listeners k = OutgoingListeners t →
  onStream c rid s = attachRemote rid (clearTimeout t s).
Proof.
  intros Hc Hl. unfold onStream. by rewrite Hc, Hl.
Qed.

Lemma timerFires_disarmed (t : nat) (k : Timer) (s : State) :
  timers (store s) !! t = Some k → armed k = false → timerFires t s = s.
Proof.
  intros Ht Ha. unfold timerFires. by rewrite Ht, Ha.
Qed.

(** X18: an outgoing call arms a timer of 15000 ms, tied to its connection
    by the listeners of that connection.  When the timer fires while
    [connectionRef] still holds that connection and the remote video has no
    stream, the user is alerted and the call is aborted: that connection is
    closed, both handles are null, every track of the local stream is
    stopped, the mounted video surfaces show nothing and the call is not
    active.  When the connection delivers the remote stream first, the stream
    becomes the [srcObject] of the mounted remote video, the timer is cleared
    and it does nothing however late it fires. *)
Theorem outgoing_timeout_of_current_call :
  (∀ i p v r tracks s,
     pending i v (OutgoingFirst (Some p) r) s
     ∨ pending i v (OutgoingFallback (Some p) r) s →
     r ≠ "" →
     let sid := length (streams (store s)) in
     let c := length (connections (store s)) in
     let t := length (timers (store s)) in
     let s' := mediaGranted i tracks true s in
     timers (store s') = timers (store s) ++ [MkTimer 15000 true CallTimeout]
     ∧ connections (store s') =
         connections (store s) ++ [MkConn r (Some sid) false (OutgoingListeners t)]
     ∧ connectionRef (refs s') = Some c
     ∧ actions (out s') = actions (out s) ++ [PeerCall p r sid])
  ∧ (∀ c k t d s,
       connections (store s) !! c = Some k →
       listeners k = OutgoingListeners t →
       timers (store s) !! t = Some (MkTimer d true CallTimeout) →
       connectionRef (refs s) = Some c →
       noRemoteStream s = true →
       let s' := timerFires t s in
       alerts (out s') =
         alerts (out s) ++ ["Could not connect to peer. Please check the remote ID and try again."]
       ∧ (∃ k', connections (store s') !! c = Some k'
                ∧ closed k' = true ∧ remote k' = remote k)
       ∧ connectionRef (refs s') = None
       ∧ localStreamRef (refs s') = None
       ∧ (∀ sid tracks,
            localStreamRef (refs s) = Some sid →
            streams (store s) !! sid = Some tracks →
            ∃ tracks', streams (store s') !! sid = Some tracks'
                       ∧ length tracks' = length tracks
                       ∧ ∀ x, x ∈ tracks' → ended x = true)
       ∧ shows (localVideoRef (refs s)) (localVideoRef (refs s')) None
       ∧ shows (remoteVideoRef (refs s)) (remoteVideoRef (refs s')) None
       ∧ callActive (hooks s') = false)
  ∧ (∀ c k t rid s,
       connections (store s) !! c = Some k →
       listeners k = OutgoingListeners t →
       is_Some (timers (store s) !! t) →
       let s' := onStream c rid s in
       (∃ k', timers (store s') !! t = Some k' ∧ armed k' = false)
       ∧ shows (remoteVideoRef (refs s)) (remoteVideoRef (refs s'))
               (Some (Received rid))
       ∧ alerts (out s') = alerts (out s)
       ∧ actions (out s') = actions (out s)
       ∧ connectionRef (refs s') = connectionRef (refs s)
       ∧ localStreamRef (refs s') = localStreamRef (refs s)
       ∧ callActive (hooks s') = callActive (hooks s)
       ∧ ∀ es, timerFires t (run es s') = run es s').
Proof.
  split; [|split].
  - intros i p v r tracks s Hp Hr.
    destruct (outgoing_granted_post i p v r tracks s Hp Hr) as (H1 & H2 & H3 & _ & H5 & _).
    by repeat split.
  - intros c k t d s Hc Hl Ht Hr Hn s'. unfold s'.
    rewrite (call_timeout_post t d s Ht Hn).
    set (x := alert _ _).
    assert (Hx : refs x = refs s ∧ connections (store x) = connections (store s)
                 ∧ streams (store x) = streams (store s)) by done.
    destruct Hx as (Hx1 & Hx2 & Hx3).
    destruct (endCall_post x) as (H1 & H2 & H3 & H4 & H5 & H6 & H7 & _).
    destruct (endCall_frame x) as (_ & _ & _ & _ & _ & _ & _ & _ & _ & _ & F11 & _).
    cbv zeta in *. rewrite Hx1, Hx2, Hx3 in *.
    split; [by rewrite F11|]. split.
    { exists (closeConn k). by rewrite (H3 c Hr), Hc. }
    split; [done|]. split; [done|]. split.
    { intros sid tracks Hs Htr. apply (stopped_tracks tracks).
      by rewrite (H4 sid Hs), Htr. }
    rewrite H5, H6. repeat split; try done; apply shows_set_srcObject.
  - intros c k t rid s Hc Hl [k0 Ht] s'. unfold s'.
    rewrite (outgoing_stream_post c t rid k s Hc Hl).
    assert (Hd : timers (store (attachRemote rid (clearTimeout t s))) !! t =
                 Some (MkTimer (delay k0) false (callback k0))).
    { unfold attachRemote, clearTimeout. proj. by rewrite list_lookup_alter_eq, Ht. }
    split; [by eexists|].
    split; [unfold attachRemote, clearTimeout; proj; apply shows_set_srcObject|].
    repeat split.
    intros es. by apply (disarmed_forever t _ es _ Hd).
Qed.

Lemma outgoing_timeout_of_current_call_witness :
  (let s' := timerFires 1 calling in
   alerts (out s') =
     alerts (out calling) ++ ["Could not connect to peer. Please check the remote ID and try again."]
   ∧ (∃ k', connections (store s') !! 0 = Some k'
            ∧ closed k' = true
            ∧ remote k' = remote (MkConn "bob" (Some 0) false (OutgoingListeners 1)))
   ∧ (∃ tracks', streams (store s') !! 0 = Some tracks'
                 ∧ length tracks' = length camera
                 ∧ ∀ x, x ∈ tracks' → ended x = true))
  ∧ (let s' := onStream 0 7 calling in
     (∃ k', timers (store s') !! 1 = Some k' ∧ armed k' = false)
     ∧ shows (remoteVideoRef (refs calling)) (remoteVideoRef (refs s'))
             (Some (Received 7))
     ∧ ∀ es, timerFires 1 (run es s') = run es s')
  ∧ timers (store (mediaGranted 0 camera true dialing)) =
      timers (store dialing) ++ [MkTimer 15000 true CallTimeout].
Proof.
  destruct outgoing_timeout_of_current_call as (Harm & Hfire & Hstream).
  assert (T : timers (store calling) !! 1 = Some (MkTimer 15000 true CallTimeout))
    by (vm_compute; reflexivity).
  assert (N : noRemoteStream calling = true) by (vm_compute; reflexivity).
  assert (C : connections (store calling) !! 0 =
              Some (MkConn "bob" (Some 0) false (OutgoingListeners 1)))
    by (vm_compute; reflexivity).
  assert (R : connectionRef (refs calling) = Some 0) by (vm_compute; reflexivity).
  assert (L : localStreamRef (refs calling) = Some 0) by (vm_compute; reflexivity).
  assert (S : streams (store calling) !! 0 = Some camera) by (vm_compute; reflexivity).
  assert (P : pending 0 true (OutgoingFirst (Some 0) "bob") dialing)
    by (vm_compute; reflexivity).
  assert (B : "bob" ≠ "") by discriminate.
  split; [|split].
  - destruct (Hfire 0 _ 1 _ calling C eq_refl T R N) as (H1 & H2 & _ & _ & H5 & _).
    exact (conj H1 (conj H2 (H5 0 camera L S))).
  - destruct (Hstream 0 _ 1 7 calling C eq_refl (mk_is_Some _ _ T))
      as (H1 & H2 & _ & _ & _ & _ & _ & H8).
    exact (conj H1 (conj H2 H8)).
  - exact (proj1 (Harm 0 0 true "bob" camera dialing (or_introl P) B)).
Defined.

(** C6: the abort half fails on the code.  The callback of the timeout
    calls [endCall], which closes whatever [connectionRef] holds.  After
    [carol] calls in while the call to [bob] waits for an answer, the ref
    holds her connection: when the timeout of the call to [bob] fires with
    no remote stream, the user is alerted, the connection of [carol], which
    nobody answered, is closed, and the connection to [bob], whose timer it
    was, stays open with no ref left to close it. *)
Theorem call_timeout_closes_other_call :
  reachable stolen
  ∧ connections (store stolen) =
      [MkConn "bob" (Some 0) false (OutgoingListeners 1);
       MkConn "carol" None false NoListeners]
  ∧ timers (store stolen) !! 1 = Some (MkTimer 15000 true CallTimeout)
  ∧ connectionRef (refs stolen) = Some 1
  ∧ noRemoteStream stolen = true
  ∧ alerts (out (step (TimerFires 1) stolen)) =
      ["Could not connect to peer. Please check the remote ID and try again."]
  ∧ connections (store (step (TimerFires 1) stolen)) =
      [MkConn "bob" (Some 0) false (OutgoingListeners 1);
       MkConn "carol" None true NoListeners]
  ∧ openCalls (step (TimerFires 1) stolen) = [0]
  ∧ connectionRef (refs (step (TimerFires 1) stolen)) = None
  ∧ callActive (hooks (step (TimerFires 1) stolen)) = false.
Proof.
  split.
  - exists None, 42,
      [PeerOpen 0 "user_42"; TypeRemoteId "bob"; ClickStartCall;
       MediaGranted 0 camera true; PeerIncomingCall 0 "carol"].
    split; [lia | vm_compute; reflexivity].
  - vm_compute. repeat split.
Qed.

(** ** A second incoming call *)

(** An incoming call that is answered closes no connection and stops no
    stream, whatever call was active: the connections and streams of the
    store stay as they were while the refs move on to the new ones. *)
Lemma incoming_call_releases_nothing (from : string)
    (tracks : list MediaStreamTrack) (callOk : bool) (s : State) :
  let s' := mediaGranted (length (requests (store s))) tracks callOk (onCall from s) in
  (∀ c k, connections (store s) !! c = Some k → connections (store s') !! c = Some k)
  ∧ (∀ sid t, streams (store s) !! sid = Some t → streams (store s') !! sid = Some t)
  ∧ connectionRef (refs s') = Some (length (connections (store s)))
  ∧ localStreamRef (refs s') = Some (length (streams (store s))).
Proof.
  open_state s. handlers. rewrite list_lookup_middle by done. handlers.
  repeat split; try done.
  - intros c k Hc. pose proof (lookup_lt_Some _ _ _ Hc).
    rewrite !list_lookup_alter_ne by lia. by apply lookup_app_l_Some.
  - intros sid t Ht. by apply lookup_app_l_Some.
Qed.

(** C3: the invariant fails on the code.  When [bob] calls while the call
    with [alice] is active and the camera is granted again, two answered
    connections are open and two streams capture at once; nothing was closed
    or stopped when the second call took over the refs; and [endCall] then
    releases the second call only: the first connection stays open and the
    first stream keeps capturing, with no ref left to reach them. *)
Theorem second_incoming_call_leaks :
  reachable second_call
  ∧ openCalls in_call = [0] ∧ liveStreams in_call = [0]
  ∧ openCalls second_call = [0; 1] ∧ liveStreams second_call = [0; 1]
  ∧ connectionRef (refs second_call) = Some 1
  ∧ localStreamRef (refs second_call) = Some 1
  ∧ actions (out second_call) =
      [NewPeer "user_42"; GetUserMedia true true; ConnAnswer 0 0;
       GetUserMedia true true; ConnAnswer 1 1]
  ∧ offered_by_ui ClickEndCall second_call = true
  ∧ openCalls (step ClickEndCall second_call) = [0]
  ∧ liveStreams (step ClickEndCall second_call) = [0]
  ∧ connectionRef (refs (step ClickEndCall second_call)) = None
  ∧ localStreamRef (refs (step ClickEndCall second_call)) = None.
Proof.
  split.
  - exists None, 42,
      [PeerOpen 0 "user_42"; PeerIncomingCall 0 "alice"; MediaGranted 0 camera true;
       PeerIncomingCall 0 "bob"; MediaGranted 1 camera true].
    split; [lia | vm_compute; reflexivity].
  - vm_compute. repeat split.
Qed.

(** ** The connection timeout *)

Lemma onOpen_connects (p : nat) (id : string) (s : State) :
  is_Some (peers (store s) !! p) →
  connectionStatus (hooks (onOpen p id s)) = connected
  ∧ peerId (hooks (onOpen p id s)) = id.
Proof. intros [k Hk]. unfold onOpen. rewrite Hk. by proj. Qed.

Lemma mount_state (username : option string) (n0 : nat) :
  let s := mount username n0 in
  connectionStatus (hooks s) = connecting
  ∧ timers (store s) = [MkTimer 15000 true (ConnectionTimeout disconnected)]
  ∧ in_sync s.
Proof.
  unfold in_sync, mount, initialState.
  destruct username as [u|]; [destruct (decide (u = ""))|]; by cases.
Qed.

(** After a retry with another id the render that runs the effect already
    has the status [connecting], and the timeout does lead to [error]. *)
Lemma retry_timeout_fires :
  let s := run [ClickRetry 43] failed in
  timers (store s) !! 1 = Some (MkTimer 15000 true (ConnectionTimeout connecting))
  ∧ connectionStatus (hooks s) = connecting
  ∧ connectionStatus (hooks (step (TimerFires 1) s)) = error.
Proof. vm_compute. repeat split. Qed.

(** C4: the timeout half fails on the first initialization.  The effect of
    the first render arms a timer of 15000 ms whose callback tests the
    [connectionStatus] of that render, which is [disconnected]; when the
    timer fires with no event in between the status is still [connecting],
    not [error], and nothing is logged. *)
Theorem first_timeout_is_ignored (username : option string) (n0 : nat) :
  let s := mount username n0 in
  connectionStatus (hooks s) = connecting
  ∧ timers (store s) = [MkTimer 15000 true (ConnectionTimeout disconnected)]
  ∧ connectionStatus (hooks (step (TimerFires 0) s)) = connecting
  ∧ out (step (TimerFires 0) s) = out s.
Proof.
  destruct (mount_state username n0) as (H1 & H2 & H3). cbv zeta in *.
  split; [done|]. split; [done|].
  unfold step, handle, timerFires. cbn [offered_by_ui].
  rewrite H2. cbn [lookup list_lookup armed callback connectionTimedOut].
  unfold runEffects, clearTimeout. proj.
  rewrite H3. rewrite decide_True by reflexivity. proj. by split.
Qed.

(** ** Retry *)

Lemma retry_identity (n : nat) (s : State) :
  actualUsername (hooks (retryConnection n s)) = userId n
  ∧ stableIdRef (refs (retryConnection n s)) = userId n
  ∧ connectionStatus (hooks (retryConnection n s)) = connecting
  ∧ peer (hooks (retryConnection n s)) = None.
Proof. unfold retryConnection. cases; done. Qed.

Lemma userId_inj (n m : nat) : userId n = userId m → n = m.
Proof.
  unfold userId. intros H. cbv [String.append] in H. injection H as H.
  apply Unsigned.to_uint_inj.
  assert (Some (Nat.to_uint n) = Some (Nat.to_uint m)) as [= E]; [|done].
  by rewrite <- !NilEmpty.usu, H.
Qed.

(** A retry that draws the number of the current identity keeps the identity
    and does not initialize again. *)
Lemma retry_same_draw (n : nat) (s : State) :
  in_sync s → actualUsername (hooks s) = userId n →
  let s' := runEffects (retryConnection n s) in
  actualUsername (hooks s') = actualUsername (hooks s)
  ∧ peer (hooks s') = None
  ∧ length (peers (store s')) = length (peers (store s))
  ∧ timers (store s') = timers (store s).
Proof.
  unfold in_sync. intros Hs Hn.
  assert (runEffects (retryConnection n s) = retryConnection n s) as ->.
  { unfold runEffects.
    replace (effectDeps (retryConnection n s)) with (effectDeps s)
      by (unfold retryConnection; cases; done).
    destruct (retry_identity n s) as (-> & _).
    by rewrite Hs, Hn, decide_True. }
  destruct (retry_identity n s) as (-> & _ & _ & ->).
  unfold retryConnection. cases; repeat split; try done.
  by rewrite length_alter.
Qed.

(** A retry that draws another number initializes again, with a timer whose
    callback sees the status [connecting]. *)
Lemma retry_other_draw (n : nat) (s : State) :
  in_sync s → actualUsername (hooks s) ≠ userId n →
  let s' := runEffects (retryConnection n s) in
  actualUsername (hooks s') = userId n
  ∧ connectionStatus (hooks s') = connecting
  ∧ peer (hooks s') = Some (length (peers (store s)))
  ∧ timers (store s') !! length (timers (store s)) =
      Some (MkTimer 15000 true (ConnectionTimeout connecting)).
Proof.
  unfold in_sync. intros Hs Hn. open_state s. cbn in Hs, Hn. subst dep.
  unfold runEffects, retryConnection.
  destruct pr as [p|], cl as [[t p']|]; cases; try congruence.
  all: repeat split; try done.
  all: rewrite ?length_alter; try done.
  all: by rewrite list_lookup_middle by (by rewrite ?length_alter).
Qed.

(** C7: the identity after a retry is not always a new one.  On the first
    connection as [user_42], after a signaling error, a retry whose draw is
    42 again destroys the peer and sets the status to [connecting], but the
    identity is [user_42] as before, and because [actualUsername] did not
    change the effect does not run: no peer is created and no timer armed. *)
Theorem retry_can_repeat_identity :
  let s' := step (ClickRetry 42) failed in
  offered_by_ui (ClickRetry 42) failed = true
  ∧ actualUsername (hooks failed) = "user_42"
  ∧ actualUsername (hooks s') = "user_42"
  ∧ stableIdRef (refs s') = stableIdRef (refs failed)
  ∧ connectionStatus (hooks s') = connecting
  ∧ peer (hooks s') = None
  ∧ peers (store s') = [MkPeer "user_42" true 0]
  ∧ timers (store s') = timers (store failed)
  ∧ actions (out s') = [NewPeer "user_42"; PeerDestroy 0].
Proof. vm_compute. repeat split. Qed.

(** * Further properties *)

(** ** What changes the connection status and the call-active flag *)

Lemma runEffects_callActive (s : State) :
  callActive (hooks (runEffects s)) = callActive (hooks s).
Proof. cases; done. Qed.

(** X1: in a state where the effect has run for the current identity, a turn
    of the event loop changes the connection status only on a signaling
    event, a timer or a retry, and then to the one value that event sets:
    [connected] only on ['open'], [error] only on ['error'] or a timer,
    [disconnected] only on ['disconnected'] or ['close'], [connecting] only
    on a retry.  Clicks, media requests and connection events leave it. *)
Theorem status_changes_only_by (e : Event) (s : State) :
  in_sync s →
  connectionStatus (hooks (step e s)) = connectionStatus (hooks s)
  ∨ status_after e (connectionStatus (hooks (step e s))).
Proof.
  intros Hs. destruct (offered_by_ui e s) eqn:Ho;
    [|left; unfold step; by rewrite Ho].
  destruct e as [| | | | | | | | | | | | | | | | |n].
  18: {
    right. unfold step. rewrite Ho. cbn [handle status_after].
    destruct (decide (actualUsername (hooks s) = userId n)) as [Hu|Hu].
    - assert (runEffects (retryConnection n s) = retryConnection n s) as ->.
      { unfold runEffects.
        replace (effectDeps (retryConnection n s)) with (effectDeps s)
          by (unfold retryConnection; cases; done).
        destruct (retry_identity n s) as (-> & _).
        unfold in_sync in Hs. by rewrite Hs, Hu, decide_True. }
      apply retry_identity.
    - apply (retry_other_draw n s Hs Hu). }
  all: rewrite step_is_handle by done; cases; first [by left | by right].
Qed.

Lemma status_changes_only_by_witness :
  connectionStatus (hooks (step (PeerOpen 0 "user_42") (mount None 42))) =
    connectionStatus (hooks (mount None 42))
  ∨ status_after (PeerOpen 0 "user_42")
      (connectionStatus (hooks (step (PeerOpen 0 "user_42") (mount None 42)))).
Proof.
  assert (H : in_sync (mount None 42)) by (vm_compute; reflexivity).
  exact (status_changes_only_by (PeerOpen 0 "user_42") (mount None 42) H).
Defined.

(** X2: a turn of the event loop changes the call-active flag only in these
    ways: a granted media request sets it; the end button, the ['close'] and
    ['error'] events of a connection and a timer clear it.  No signaling
    event, and no retry, changes it. *)
Theorem callActive_changes_only_by (e : Event) (s : State) :
  callActive (hooks (step e s)) = callActive (hooks s)
  ∨ callActive_after e (callActive (hooks (step e s))).
Proof.
  unfold step. destruct (offered_by_ui e s); [|by left].
  rewrite runEffects_callActive.
  destruct e; cases; first [by left | by right].
Qed.

(** ** Toggling twice, and both toggles *)

Lemma flipKind_twice (k : TrackKind) (t : MediaStreamTrack) :
  flipKind k (flipKind k t) = t.
Proof. by destruct t as [[] [] ?], k. Qed.

Lemma flipKind_comm (k k' : TrackKind) (t : MediaStreamTrack) :
  flipKind k (flipKind k' t) = flipKind k' (flipKind k t).
Proof. by destruct t as [[] ? ?], k, k'. Qed.

Lemma fmap_flip_twice (k : TrackKind) (tracks : list MediaStreamTrack) :
  flipKind k <$> (flipKind k <$> tracks) = tracks.
Proof.
  induction tracks as [|t tracks IH]; [done|].
  cbn. by rewrite flipKind_twice, IH.
Qed.

Lemma fmap_flip_comm (k k' : TrackKind) (tracks : list MediaStreamTrack) :
  flipKind k <$> (flipKind k' <$> tracks) = flipKind k' <$> (flipKind k <$> tracks).
Proof.
  induction tracks as [|t tracks IH]; [done|].
  cbn. by rewrite flipKind_comm, IH.
Qed.

Lemma alter_flip_twice (k : TrackKind) (sid : nat)
    (l : list (list MediaStreamTrack)) :
  alter (fmap (flipKind k)) sid (alter (fmap (flipKind k)) sid l) = l.
Proof.
  revert sid. induction l as [|x l IH]; intros [|sid]; cbn; [done..| |].
  - by rewrite fmap_flip_twice.
  - by rewrite IH.
Qed.

Lemma alter_flip_comm (k k' : TrackKind) (sid : nat)
    (l : list (list MediaStreamTrack)) :
  alter (fmap (flipKind k)) sid (alter (fmap (flipKind k')) sid l) =
  alter (fmap (flipKind k')) sid (alter (fmap (flipKind k)) sid l).
Proof.
  revert sid. induction l as [|x l IH]; intros [|sid]; cbn; [done..| |].
  - by rewrite fmap_flip_comm.
  - by rewrite IH.
Qed.

(** X3: muting and then unmuting gives back the state there was, every
    track and the flag included, and so does hiding and then showing the
    video. *)
Theorem toggle_twice (s : State) :
  toggleMute (toggleMute s) = s ∧ toggleVideo (toggleVideo s) = s.
Proof.
  open_state s. unfold toggleMute, toggleVideo.
  destruct ls as [sid|]; fields; [|done].
  by rewrite !alter_flip_twice, !negb_involutive.
Qed.

(** X4: the two toggles do not interfere: mute then hide is hide then
    mute. *)
Theorem toggles_commute (s : State) :
  toggleMute (toggleVideo s) = toggleVideo (toggleMute s).
Proof.
  open_state s. unfold toggleMute, toggleVideo.
  destruct ls as [sid|]; fields; [|done].
  by rewrite alter_flip_comm.
Qed.

(** ** One signaling peer at a time *)

Lemma live_after_destroy (prs : list Peer) (p0 p : nat) (k : Peer) :
  alter (λ k, MkPeer (requestedId k) true (openTimeout k)) p0 prs !! p = Some k →
  destroyed k = false → p ≠ p0 ∧ prs !! p = Some k.
Proof.
  intros Hp Hd. destruct (decide (p0 = p)) as [->|Hne].
  - rewrite list_lookup_alter_eq in Hp. destruct (prs !! p); simplify_eq/=.
  - rewrite list_lookup_alter_ne in Hp by done. done.
Qed.

Lemma handle_one_live_peer (e : Event) (s : State) :
  one_live_peer s → one_live_peer (handle e s).
Proof.
  unfold one_live_peer. intros H. destruct e; cases; try done.
  - intros p k Hp Hd. destruct (live_after_destroy _ _ _ _ Hp Hd) as [Hne Hp'].
    specialize (H p k Hp' Hd). congruence.
  - by rewrite H0.
Qed.

Lemma runEffects_one_live_peer (s : State) :
  one_live_peer s → one_live_peer (runEffects s).
Proof.
  unfold one_live_peer. intros H. cases; try done.
  all: intros q kq Hq Hd.
  all: try match goal with Hp : peer (hooks _) = _ |- _ => rewrite Hp in * end.
  all: try by eauto.
  all: try (destruct (live_after_destroy _ _ _ _ Hq Hd) as [Hne Hq']; by eauto).
  all: apply lookup_app_Some in Hq as [Hq | [Hlen Hq]].
  all: try (destruct (live_after_destroy _ _ _ _ Hq Hd) as [Hne Hq'];
            by specialize (H q kq Hq' Hd)).
  all: try by specialize (H q kq Hq Hd).
  all: apply list_lookup_singleton_Some in Hq as [Hq _];
    rewrite ?length_alter in *; f_equal; lia.
Qed.

(** X5: in every state the component can reach, a signaling peer that was
    not destroyed is the one held in the [peer] cell: there is never more
    than one live peer, and none that the component lost track of. *)
Theorem at_most_one_live_peer (s : State) :
  reachable s → one_live_peer s.
Proof.
  intros (username & n0 & es & _ & ->).
  assert (H0 : one_live_peer (mount username n0)).
  { apply runEffects_one_live_peer. by intros [|p] k Hp. }
  revert H0. generalize (mount username n0).
  induction es as [|e es IH]; intros s H; [done|].
  apply IH. unfold step. destruct (offered_by_ui e s); [|done].
  by apply runEffects_one_live_peer, handle_one_live_peer.
Qed.

Lemma at_most_one_live_peer_witness :
  one_live_peer (run [ClickRetry 43] failed).
Proof.
  apply at_most_one_live_peer.
  exists None, 42, [PeerError 0 "network" "Lost connection to server."; ClickRetry 43].
  split; [lia | vm_compute; reflexivity].
Defined.

(** ** Outgoing calls: from the click to the call *)

Lemma all_dialable_settle (i : nat) (l : list MediaRequest) :
  all_dialable l →
  all_dialable (alter (λ q, MkRequest (wantVideo q) true (continuation q)) i l).
Proof.
  intros H j q Hj. destruct (decide (i = j)) as [->|Hne].
  - rewrite list_lookup_alter_eq in Hj.
    destruct (l !! j) as [q0|] eqn:E; simplify_eq/=. by apply (H j q0).
  - rewrite list_lookup_alter_ne in Hj by done. by apply (H j).
Qed.

Lemma all_dialable_app (v : bool) (k : Continuation) (l : list MediaRequest) :
  dialable k → all_dialable l → all_dialable (l ++ [MkRequest v false k]).
Proof.
  intros Hk H j q Hj. apply lookup_app_Some in Hj as [Hj | [_ Hj]].
  - by apply (H j).
  - by apply list_lookup_singleton_Some in Hj as [_ <-].
Qed.

Lemma handle_all_dialable (e : Event) (s : State) :
  all_dialable (requests (store s)) →
  all_dialable (requests (store (handle e s))).
Proof.
  intros H. destruct e; cases; try done.
  all: repeat (first [apply all_dialable_settle | apply all_dialable_app]); try done.
  all: try match goal with
    | Hq : _ !! _ = Some ?q, Hk : continuation ?q = _ |- _ =>
        pose proof (H _ _ Hq) as Hd; by rewrite Hk in Hd
    end.
  apply bool_decide_eq_false in H0.
  split; [intros Hp | intros Hr]; apply H0; [by left | by right].
Qed.

Lemma runEffects_requests (s : State) :
  requests (store (runEffects s)) = requests (store s).
Proof. cases; done. Qed.

Lemma reachable_all_dialable (s : State) :
  reachable s → all_dialable (requests (store s)).
Proof.
  intros (username & n0 & es & _ & ->).
  assert (H0 : all_dialable (requests (store (mount username n0)))).
  { unfold mount. rewrite runEffects_requests. by intros [|i] q Hq. }
  revert H0. generalize (mount username n0).
  induction es as [|e es IH]; intros s H; [done|].
  apply IH. unfold step. destruct (offered_by_ui e s); [|done].
  rewrite runEffects_requests. by apply handle_all_dialable.
Qed.

(** X6: in a state the component can reach, a media request of [startCall]
    that is still pending always holds a peer and a non-empty remote id, so
    when it is granted [makeOutgoingCall] does not return early: the new
    stream becomes the local stream and [peer.call] is attempted with that
    remote id and that stream. *)
Theorem granted_outgoing_request_calls (i : nat) (v callOk : bool)
    (p0 : option nat) (r0 : string) (tracks : list MediaStreamTrack) (s : State) :
  reachable s →
  pending i v (OutgoingFirst p0 r0) s ∨ pending i v (OutgoingFallback p0 r0) s →
  ∃ p, p0 = Some p ∧ r0 ≠ ""
       ∧ localStreamRef (refs (mediaGranted i tracks callOk s)) =
           Some (length (streams (store s)))
       ∧ actions (out (mediaGranted i tracks callOk s)) =
           actions (out s) ++ [PeerCall p r0 (length (streams (store s)))].
Proof.
  intros Hr Hp.
  assert (Hd : dialable (OutgoingFirst p0 r0)).
  { pose proof (reachable_all_dialable s Hr) as H.
    destruct Hp as [Hp|Hp]; by specialize (H i _ Hp). }
  destruct Hd as [Hp0 Hr0]. destruct p0 as [p|]; [|done].
  exists p. split; [done|]. split; [done|].
  open_state s. unfold pending in Hp. handlers.
  destruct Hp as [-> | ->]; handlers; rewrite (bool_decide_eq_false_2 _ Hr0);
    destruct callOk; handlers; done.
Qed.

Lemma granted_outgoing_request_calls_witness :
  ∃ p, Some 0 = Some p ∧ "bob" ≠ ""
       ∧ localStreamRef (refs (mediaGranted 0 camera true dialing)) =
           Some (length (streams (store dialing)))
       ∧ actions (out (mediaGranted 0 camera true dialing)) =
           actions (out dialing) ++ [PeerCall p "bob" (length (streams (store dialing)))].
Proof.
  assert (R : reachable dialing).
  { exists None, 42, [PeerOpen 0 "user_42"; TypeRemoteId "bob"; ClickStartCall].
    split; [lia | vm_compute; reflexivity]. }
  assert (P : pending 0 true (OutgoingFirst (Some 0) "bob") dialing)
    by (vm_compute; reflexivity).
  exact (granted_outgoing_request_calls 0 true true (Some 0) "bob" camera dialing
           R (or_introl P)).
Defined.

(** X7: an outgoing call follows the same media fallback as an incoming
    one, and says so: a refused camera request asks for the microphone
    alone and calls nobody yet; a refused microphone request alerts the user
    and leaves connections, timers, refs and state cells as they were; a call
    placed on the microphone request also sets the video-off flag and tells
    the user that video is not available, which a call placed on the camera
    request does not. *)
Theorem outgoing_media_fallback :
  (∀ i p0 r0 s,
     pending i true (OutgoingFirst p0 r0) s →
     let s' := mediaDenied i s in
     pending (length (requests (store s))) false (OutgoingFallback p0 r0) s'
     ∧ actions (out s') = actions (out s) ++ [GetUserMedia false true]
     ∧ alerts (out s') = alerts (out s)
     ∧ connections (store s') = connections (store s)
     ∧ timers (store s') = timers (store s)
     ∧ refs s' = refs s
     ∧ hooks s' = hooks s)
  ∧ (∀ i v p0 r0 s,
       pending i v (OutgoingFallback p0 r0) s →
       let s' := mediaDenied i s in
       alerts (out s') =
         alerts (out s) ++ ["Could not access camera or microphone. Please check permissions."]
       ∧ actions (out s') = actions (out s)
       ∧ connections (store s') = connections (store s)
       ∧ timers (store s') = timers (store s)
       ∧ streams (store s') = streams (store s)
       ∧ refs s' = refs s
       ∧ hooks s' = hooks s)
  ∧ (∀ i v p r tracks s,
       pending i v (OutgoingFallback (Some p) r) s → r ≠ "" →
       let s' := mediaGranted i tracks true s in
       isVideoOff (hooks s') = true
       ∧ callActive (hooks s') = true
       ∧ alerts (out s') =
           alerts (out s) ++ ["Video is not available. Proceeding with audio only."])
  ∧ (∀ i v p r tracks s,
       pending i v (OutgoingFirst (Some p) r) s → r ≠ "" →
       let s' := mediaGranted i tracks true s in
       isVideoOff (hooks s') = isVideoOff (hooks s)
       ∧ callActive (hooks s') = true
       ∧ alerts (out s') = alerts (out s)).
Proof.
  split; [|split; [|split]].
  - intros i p0 r0 s. open_state s. unfold pending. handlers. intros ->.
    repeat split; try done.
    rewrite list_lookup_middle; [done|]. by rewrite length_alter.
  - intros i v p0 r0 s. open_state s. unfold pending. handlers. by intros ->.
  - intros i v p r tracks s. open_state s. unfold pending. handlers.
    intros -> Hr. handlers. by rewrite (bool_decide_eq_false_2 _ Hr).
  - intros i v p r tracks s. open_state s. unfold pending. handlers.
    intros -> Hr. handlers. by rewrite (bool_decide_eq_false_2 _ Hr).
Qed.

Lemma outgoing_media_fallback_witness :
  (let s' := mediaDenied 0 dialing in
   pending (length (requests (store dialing))) false (OutgoingFallback (Some 0) "bob") s'
   ∧ actions (out s') = actions (out dialing) ++ [GetUserMedia false true])
  ∧ (let s' := mediaDenied 1 dialing_audio in
     alerts (out s') =
       alerts (out dialing_audio)
       ++ ["Could not access camera or microphone. Please check permissions."]
     ∧ actions (out s') = actions (out dialing_audio))
  ∧ (let s' := mediaGranted 1 microphone true dialing_audio in
     isVideoOff (hooks s') = true
     ∧ callActive (hooks s') = true)
  ∧ (let s' := mediaGranted 0 camera true dialing in
     isVideoOff (hooks s') = isVideoOff (hooks dialing)).
Proof.
  destruct outgoing_media_fallback as (H1 & H2 & H3 & H4).
  assert (P0 : pending 0 true (OutgoingFirst (Some 0) "bob") dialing)
    by (vm_compute; reflexivity).
  assert (P1 : pending 1 false (OutgoingFallback (Some 0) "bob") dialing_audio)
    by (vm_compute; reflexivity).
  assert (B : "bob" ≠ "") by discriminate.
  split; [|split; [|split]].
  - destruct (H1 0 _ _ dialing P0) as (A1 & A2 & _). exact (conj A1 A2).
  - destruct (H2 1 _ _ _ dialing_audio P1) as (A1 & A2 & _). exact (conj A1 A2).
  - destruct (H3 1 _ _ _ microphone dialing_audio P1 B) as (A1 & A2 & _).
    exact (conj A1 A2).
  - exact (proj1 (H4 0 _ _ _ camera dialing P0 B)).
Defined.

(** X8: when [peer.call] throws, on the camera request or on the
    microphone request, the user is told that the call failed, no connection
    is made, no timer is armed and the call-active flag is as before; the
    stream just acquired stays the local stream and the [srcObject] of the
    mounted local video, with its tracks as granted.  On the microphone
    request the user is told as well that video is not available and the
    video-off flag is set, although no call was placed. *)
Theorem failed_call_keeps_stream (i p : nat) (v : bool) (r : string)
    (tracks : list MediaStreamTrack) (s : State) :
  pending i v (OutgoingFirst (Some p) r) s
  ∨ pending i v (OutgoingFallback (Some p) r) s →
  r ≠ "" →
  let sid := length (streams (store s)) in
  let s' := mediaGranted i tracks false s in
  (pending i v (OutgoingFirst (Some p) r) s →
     alerts (out s') = alerts (out s) ++ ["Failed to establish call. Please try again."]
     ∧ isVideoOff (hooks s') = isVideoOff (hooks s))
  ∧ (pending i v (OutgoingFallback (Some p) r) s →
       alerts (out s') =
         alerts (out s) ++ ["Failed to establish call. Please try again.";
                            "Video is not available. Proceeding with audio only."]
       ∧ isVideoOff (hooks s') = true)
  ∧ actions (out s') = actions (out s) ++ [PeerCall p r sid]
  ∧ connections (store s') = connections (store s)
  ∧ timers (store s') = timers (store s)
  ∧ connectionRef (refs s') = connectionRef (refs s)
  ∧ callActive (hooks s') = callActive (hooks s)
  ∧ localStreamRef (refs s') = Some sid
  ∧ shows (localVideoRef (refs s)) (localVideoRef (refs s')) (Some (Acquired sid))
  ∧ streams (store s') !! sid = Some tracks.
Proof.
  open_state s. unfold pending. handlers. intros Hp Hr.
  destruct Hp as [Hp | Hp]; rewrite Hp; handlers;
    rewrite (bool_decide_eq_false_2 _ Hr).
  all: rewrite <- ?app_assoc; cbn [app].
  all: split; [first [by intros [=] | by intros _] |].
  all: split; [first [by intros [=] | by intros _] |].
  all: repeat split; try done; try (by rewrite list_lookup_middle).
  all: destruct lv; cbn; [by eexists | done].
Qed.

Lemma failed_call_keeps_stream_witness :
  (let s' := mediaGranted 0 camera false dialing in
   (alerts (out s') = alerts (out dialing) ++ ["Failed to establish call. Please try again."]
    ∧ isVideoOff (hooks s') = isVideoOff (hooks dialing))
   ∧ timers (store s') = timers (store dialing)
   ∧ shows (localVideoRef (refs dialing)) (localVideoRef (refs s'))
           (Some (Acquired (length (streams (store dialing)))))
   ∧ streams (store s') !! length (streams (store dialing)) = Some camera)
  ∧ (let s' := mediaGranted 1 microphone false dialing_audio in
     alerts (out s') =
       alerts (out dialing_audio)
       ++ ["Failed to establish call. Please try again.";
           "Video is not available. Proceeding with audio only."]
     ∧ isVideoOff (hooks s') = true).
Proof.
  assert (P0 : pending 0 true (OutgoingFirst (Some 0) "bob") dialing)
    by (vm_compute; reflexivity).
  assert (P1 : pending 1 false (OutgoingFallback (Some 0) "bob") dialing_audio)
    by (vm_compute; reflexivity).
  assert (B : "bob" ≠ "") by discriminate.
  destruct (failed_call_keeps_stream 0 0 true "bob" camera dialing (or_introl P0) B)
    as (A1 & _ & _ & _ & A5 & _ & _ & _ & A9 & A10).
  destruct (failed_call_keeps_stream 1 0 false "bob" microphone dialing_audio
              (or_intror P1) B) as (_ & B2 & _).
  exact (conj (conj (A1 P0) (conj A5 (conj A9 A10))) (B2 P1)).
Defined.

(** ** The end of a call seen from the connection *)

Lemma clearTimeout_disarms (t : nat) (k : Timer) (s : State) :
  timers (store s) !! t = Some k →
  timers (store (clearTimeout t s)) !! t = Some (MkTimer (delay k) false (callback k)).
Proof. intros Ht. unfold clearTimeout. proj. by rewrite list_lookup_alter_eq, Ht. Qed.

Lemma endCall_timers (s : State) : timers (store (endCall s)) = timers (store s).
Proof. apply endCall_frame. Qed.



(** X10: the connection of an incoming call has no ['close'] and no
    ['error'] listener: when the caller hangs up or the connection fails,
    whether the call was answered or not, the state stays as it is, the call
    still counts as active and nothing is released. *)
Theorem incoming_close_or_error_is_ignored (c : nat) (k : MediaConnection)
    (message : string) (s : State) :
  in_sync s →
  connections (store s) !! c = Some k →
  listeners k = IncomingListeners ∨ listeners k = NoListeners →
  step (ConnClosed c) s = s ∧ step (ConnError c message) s = s.
Proof.
  intros Hs Hc Hl.
  rewrite !step_is_handle by done. cbn [handle].
  unfold onConnClose, onConnError. rewrite Hc. by destruct Hl as [-> | ->].
Qed.

Lemma incoming_close_or_error_is_ignored_witness :
  step (ConnClosed 0) in_call = in_call
  ∧ step (ConnError 0 "Connection failed.") in_call = in_call.
Proof.
  assert (S : in_sync in_call) by (vm_compute; reflexivity).
  assert (C : connections (store in_call) !! 0 =
              Some (MkConn "alice" (Some 0) false IncomingListeners))
    by (vm_compute; reflexivity).
  exact (incoming_close_or_error_is_ignored 0 _ "Connection failed." in_call
           S C (or_introl eq_refl)).
Defined.

(** ** Timers *)

Lemma timerFires_spends (t : nat) (k : Timer) (s : State) :
  timers (store s) !! t = Some k →
  ∃ k', timers (store (timerFires t s)) !! t = Some k' ∧ armed k' = false.
Proof.
  intros Ht. unfold timerFires. rewrite Ht.
  destruct (armed k) eqn:Ha; [|by eauto].
  pose proof (clearTimeout_disarms t k s Ht) as Hd.
  exists (MkTimer (delay k) false (callback k)). split; [|done].
  destruct (callback k) as [seen|].
  - by destruct seen.
  - unfold callTimedOut. destruct (noRemoteStream _); [|done].
    by rewrite endCall_timers.
Qed.

(** ** Nothing comes back *)

Lemma evolves_refl {A : Type} (R : A → A → Prop) (l : list A) :
  (∀ x, R x x) → evolves R l l.
Proof. intros HR i x Hi. eauto. Qed.

Lemma evolves_trans {A : Type} (R : A → A → Prop) (a b c : list A) :
  (∀ x y z, R x y → R y z → R x z) →
  evolves R a b → evolves R b c → evolves R a c.
Proof.
  intros HR H1 H2 i x Hi. destruct (H1 i x Hi) as (y & Hy & Rxy).
  destruct (H2 i y Hy) as (z & Hz & Ryz). eauto.
Qed.

Lemma evolves_alter {A : Type} (R : A → A → Prop) (f : A → A) (j : nat)
    (a b : list A) :
  (∀ x y, R x y → R x (f y)) → evolves R a b → evolves R a (alter f j b).
Proof.
  intros Hf H i x Hi. destruct (H i x Hi) as (y & Hy & Rxy).
  destruct (decide (j = i)) as [->|Hne].
  - exists (f y). rewrite list_lookup_alter_eq, Hy. eauto.
  - exists y. by rewrite list_lookup_alter_ne.
Qed.

Lemma evolves_app {A : Type} (R : A → A → Prop) (a b x : list A) :
  evolves R a b → evolves R a (b ++ x).
Proof.
  intros H i y Hi. destruct (H i y Hi) as (z & Hz & Ryz).
  exists z. split; [by apply lookup_app_l_Some | done].
Qed.

Lemma track_ages_refl (t : MediaStreamTrack) : track_ages t t.
Proof. by split. Qed.

Lemma track_ages_trans (x y z : MediaStreamTrack) :
  track_ages x y → track_ages y z → track_ages x z.
Proof. intros [H1 H2] [H3 H4]. split; [congruence | auto]. Qed.

Lemma stream_ages_stop (x y : list MediaStreamTrack) :
  Forall2 track_ages x y → Forall2 track_ages x (stop <$> y).
Proof.
  induction 1 as [|t t' x y [H1 H2] _ IH]; constructor; [|done].
  by split.
Qed.

Lemma stream_ages_flip (k : TrackKind) (x y : list MediaStreamTrack) :
  Forall2 track_ages x y → Forall2 track_ages x (flipKind k <$> y).
Proof.
  induction 1 as [|t t' x y [H1 H2] _ IH]; constructor; [|done].
  unfold flipKind. by destruct (decide (kind t' = k)).
Qed.

Lemma stream_ages_refl (x : list MediaStreamTrack) : Forall2 track_ages x x.
Proof. induction x; constructor; [apply track_ages_refl | done]. Qed.

Lemma stream_ages_trans (x y z : list MediaStreamTrack) :
  Forall2 track_ages x y → Forall2 track_ages y z → Forall2 track_ages x z.
Proof.
  intros H. revert z. induction H as [|t t' x y Ht _ IH]; intros z Hz;
    inversion Hz; subst; constructor; [by eapply track_ages_trans | auto].
Qed.

Lemma conn_ages_trans (x y z : MediaConnection) :
  conn_ages x y → conn_ages y z → conn_ages x z.
Proof. intros [H1 H2] [H3 H4]. split; [congruence | auto]. Qed.

Lemma peer_ages_trans (x y z : Peer) :
  peer_ages x y → peer_ages y z → peer_ages x z.
Proof. intros [H1 H2] [H3 H4]. split; [congruence | auto]. Qed.

Lemma store_ages_refl (a : Store) : store_ages a a.
Proof.
  repeat split; apply evolves_refl; [apply stream_ages_refl | by split..].
Qed.

Lemma store_ages_trans (a b c : Store) :
  store_ages a b → store_ages b c → store_ages a c.
Proof.
  intros (H1 & H2 & H3) (H4 & H5 & H6). repeat split.
  - eapply evolves_trans; [apply stream_ages_trans | done..].
  - eapply evolves_trans; [apply conn_ages_trans | done..].
  - eapply evolves_trans; [apply peer_ages_trans | done..].
Qed.

Ltac ages :=
  repeat first
    [ apply evolves_app
    | apply evolves_alter;
      [ first [ apply stream_ages_stop | apply stream_ages_flip
              | by intros ? ? [? ?]; split ] | ]
    | apply evolves_refl; first [ apply stream_ages_refl | by split ] ].

Lemma handle_store_ages (e : Event) (s : State) :
  store_ages (store s) (store (handle e s)).
Proof. unfold store_ages. destruct e; cases; repeat split; ages. Qed.

Lemma runEffects_store_ages (s : State) :
  store_ages (store s) (store (runEffects s)).
Proof. unfold store_ages. cases; repeat split; ages. Qed.

(** X11: whatever events happen, every stream, connection and peer of the
    store stays in the store at its index; a track keeps its kind and a
    stopped track is never live again; a closed connection is never open
    again; a destroyed peer is never live again. *)
Theorem nothing_comes_back (es : list Event) (s : State) :
  store_ages (store s) (store (run es s)).
Proof.
  revert s. induction es as [|e es IH]; intros s; [apply store_ages_refl|].
  eapply store_ages_trans; [|apply IH].
  unfold step. destruct (offered_by_ui e s); [|apply store_ages_refl].
  eapply store_ages_trans; [apply handle_store_ages | apply runEffects_store_ages].
Qed.

(** ** Retry and teardown *)

(** X12: a retry whose draw gives another identity starts over: the peer
    that was in use is destroyed, a new peer is created under the new
    identity and becomes the current one, the shown id is emptied, the
    status is [connecting], and the timeout armed for this attempt works:
    when it fires with no event in between, the status becomes [error]. *)
Theorem retry_starts_over (n : nat) (s : State) :
  in_sync s →
  connectionStatus (hooks s) = error →
  actualUsername (hooks s) ≠ userId n →
  let s' := step (ClickRetry n) s in
  let t := length (timers (store s)) in
  actualUsername (hooks s') = userId n
  ∧ peerId (hooks s') = ""
  ∧ connectionStatus (hooks s') = connecting
  ∧ peer (hooks s') = Some (length (peers (store s)))
  ∧ peers (store s') !! length (peers (store s)) = Some (MkPeer (userId n) false t)
  ∧ (∀ p k, peer (hooks s) = Some p → peers (store s) !! p = Some k →
       peers (store s') !! p = Some (MkPeer (requestedId k) true (openTimeout k)))
  ∧ connectionStatus (hooks (step (TimerFires t) s')) = error.
Proof.
  intros Hs He Hn. cbv zeta.
  assert (Hstep : step (ClickRetry n) s = runEffects (retryConnection n s)).
  { unfold step. cbn [offered_by_ui handle].
    by rewrite He, bool_decide_eq_true_2. }
  destruct (retry_other_draw n s Hs Hn) as (H1 & H2 & H3 & H4).
  cbv zeta in *. rewrite <- Hstep in *.
  assert (Hsync : in_sync (step (ClickRetry n) s))
    by (rewrite Hstep; apply runEffects_in_sync).
  split; [done|]. split.
  { rewrite Hstep. clear. unfold retryConnection. cases; done. }
  split; [done|]. split; [done|]. split.
  { rewrite Hstep. clear -Hs Hn. unfold in_sync in Hs. open_state s.
    cbn in Hs, Hn. subst dep. unfold runEffects, retryConnection.
    destruct pr as [p|], cl as [[t' p']|]; cases; try congruence.
    all: rewrite list_lookup_middle by (by rewrite ?length_alter).
    all: by rewrite ?length_alter. }
  split.
  { intros p k Hp Hk. rewrite Hstep. clear -Hs Hn Hp Hk. unfold in_sync in Hs.
    open_state s. cbn in Hs, Hn, Hp, Hk. subst dep pr.
    unfold runEffects, retryConnection.
    destruct cl as [[t' p']|]; cases; try congruence.
    all: apply lookup_app_l_Some.
    all: try (destruct (decide (p' = p)) as [->|Hne];
              [ rewrite list_lookup_alter_eq
              | rewrite list_lookup_alter_ne by done ]).
    all: by rewrite list_lookup_alter_eq, Hk. }
  rewrite step_is_handle; [|done..]. cbn [handle].
  unfold timerFires. rewrite H4. cbn [armed callback connectionTimedOut].
  unfold clearTimeout. by proj.
Qed.

Lemma retry_starts_over_witness :
  let s' := step (ClickRetry 43) failed in
  actualUsername (hooks s') = userId 43
  ∧ connectionStatus (hooks s') = connecting
  ∧ peers (store s') !! 0 = Some (MkPeer "user_42" true 0)
  ∧ connectionStatus (hooks (step (TimerFires (length (timers (store failed)))) s')) = error.
Proof.
  assert (S : in_sync failed) by (vm_compute; reflexivity).
  assert (E : connectionStatus (hooks failed) = error) by (vm_compute; reflexivity).
  assert (N : actualUsername (hooks failed) ≠ userId 43) by (vm_compute; discriminate).
  assert (P : peer (hooks failed) = Some 0) by (vm_compute; reflexivity).
  assert (K : peers (store failed) !! 0 = Some (MkPeer "user_42" false 0))
    by (vm_compute; reflexivity).
  destruct (retry_starts_over 43 failed S E N) as (A1 & _ & A3 & _ & _ & A6 & A7).
  exact (conj A1 (conj A3 (conj (A6 0 _ P K) A7))).
Defined.

(** X13: identities of the form [user_N] are equal only for equal numbers,
    so a retry changes the identity exactly when it draws a number other
    than the one of the current identity. *)
Theorem retry_changes_identity_iff (n m : nat) (s : State) :
  actualUsername (hooks s) = userId m →
  actualUsername (hooks (retryConnection n s)) ≠ actualUsername (hooks s) ↔ n ≠ m.
Proof.
  intros Hm. destruct (retry_identity n s) as (-> & _). rewrite Hm.
  split; intros H E; apply H; [by rewrite E | by apply userId_inj].
Qed.

Lemma retry_changes_identity_iff_witness :
  actualUsername (hooks (retryConnection 43 (mount None 42))) ≠
    actualUsername (hooks (mount None 42)) ↔ 43 ≠ 42.
Proof.
  assert (H : actualUsername (hooks (mount None 42)) = userId 42)
    by (vm_compute; reflexivity).
  exact (retry_changes_identity_iff 43 42 (mount None 42) H).
Defined.

(** X14: a signaling event other than an incoming call (['open'],
    ['error'], ['disconnected'], ['close'], ['connection']) leaves a call
    alone: the refs, the streams, the connections, the media requests, the
    call-active, mute and video-off flags, the remote id and the alerts are
    as before.  Losing the signaling server does not end a call. *)
Theorem signaling_leaves_call_alone (e : Event) (s : State) :
  in_sync s → signaling e = true →
  let s' := step e s in
  refs s' = refs s
  ∧ streams (store s') = streams (store s)
  ∧ connections (store s') = connections (store s)
  ∧ requests (store s') = requests (store s)
  ∧ callActive (hooks s') = callActive (hooks s)
  ∧ isMuted (hooks s') = isMuted (hooks s)
  ∧ isVideoOff (hooks s') = isVideoOff (hooks s)
  ∧ remotePeerId (hooks s') = remotePeerId (hooks s)
  ∧ alerts (out s') = alerts (out s).
Proof.
  intros Hs He. cbv zeta.
  destruct e; try discriminate; rewrite step_is_handle by done; cases; done.
Qed.

Lemma signaling_leaves_call_alone_witness :
  let s' := step (PeerDisconnected 0) in_call in
  refs s' = refs in_call
  ∧ streams (store s') = streams (store in_call)
  ∧ connections (store s') = connections (store in_call)
  ∧ callActive (hooks s') = callActive (hooks in_call).
Proof.
  assert (S : in_sync in_call) by (vm_compute; reflexivity).
  destruct (signaling_leaves_call_alone (PeerDisconnected 0) in_call S eq_refl)
    as (A1 & A2 & A3 & _ & A5 & _).
  exact (conj A1 (conj A2 (conj A3 A5))).
Defined.

(** X15: the clean-up of the initialization effect stops every track of the
    local stream, destroys the peer of that effect, clears its connection
    timeout and sets the status to [disconnected]; it does not end a call:
    the refs, the connections and the call-active flag are as before, so the
    local stream handle still points to the stopped stream. *)
Theorem cleanup_stops_media_only (t p : nat) (s : State) :
  let s' := cleanup t p s in
  (∀ sid tracks,
     localStreamRef (refs s) = Some sid →
     streams (store s) !! sid = Some tracks →
     ∃ tracks', streams (store s') !! sid = Some tracks'
                ∧ length tracks' = length tracks
                ∧ ∀ x, x ∈ tracks' → ended x = true)
  ∧ (∀ k, peers (store s) !! p = Some k →
       ∃ k', peers (store s') !! p = Some k'
             ∧ destroyed k' = true ∧ requestedId k' = requestedId k)
  ∧ (∀ k, timers (store s) !! t = Some k →
       ∃ k', timers (store s') !! t = Some k' ∧ armed k' = false)
  ∧ connectionStatus (hooks s') = disconnected
  ∧ refs s' = refs s
  ∧ connections (store s') = connections (store s)
  ∧ callActive (hooks s') = callActive (hooks s).
Proof.
  assert (H : let s' := cleanup t p s in
    (∀ sid, localStreamRef (refs s) = Some sid →
       streams (store s') !! sid = fmap stop <$> streams (store s) !! sid)
    ∧ peers (store s') !! p =
        (λ k, MkPeer (requestedId k) true (openTimeout k)) <$> peers (store s) !! p
    ∧ timers (store s') !! t =
        (λ k, MkTimer (delay k) false (callback k)) <$> timers (store s) !! t
    ∧ connectionStatus (hooks s') = disconnected
    ∧ refs s' = refs s
    ∧ connections (store s') = connections (store s)
    ∧ callActive (hooks s') = callActive (hooks s)).
  { open_state s. destruct ls as [sd|]; [destruct (stv !! sd) eqn:E|]; fields;
      rewrite ?E; repeat split; try done; try (intros ? [= <-]);
      rewrite ?list_lookup_alter_eq, ?E; done. }
  destruct H as (H1 & H2 & H3 & H4 & H5 & H6 & H7). cbv zeta in *.
  split.
  { intros sid tracks Hs Ht. apply (stopped_tracks tracks).
    by rewrite (H1 sid Hs), Ht. }
  split.
  { intros k Hk. rewrite H2, Hk. by eexists. }
  split.
  { intros k Hk. rewrite H3, Hk. by eexists. }
  done.
Qed.

Lemma cleanup_stops_media_only_witness :
  (∃ tracks', streams (store (cleanup 0 0 in_call)) !! 0 = Some tracks'
              ∧ length tracks' = length camera
              ∧ ∀ x, x ∈ tracks' → ended x = true)
  ∧ (∃ k', peers (store (cleanup 0 0 in_call)) !! 0 = Some k'
           ∧ destroyed k' = true
           ∧ requestedId k' = requestedId (MkPeer "user_42" false 0))
  ∧ refs (cleanup 0 0 in_call) = refs in_call.
Proof.
  assert (L : localStreamRef (refs in_call) = Some 0) by (vm_compute; reflexivity).
  assert (S : streams (store in_call) !! 0 = Some camera) by (vm_compute; reflexivity).
  assert (P : peers (store in_call) !! 0 = Some (MkPeer "user_42" false 0))
    by (vm_compute; reflexivity).
  destruct (cleanup_stops_media_only 0 0 in_call) as (A1 & A2 & _ & _ & A5 & _).
  exact (conj (A1 0 camera L S) (conj (A2 _ P) A5)).
Defined.

(** ** Once connected *)

(** X16: once the ['open'] event of a peer has arrived, the connection
    timeout armed with that peer is cleared: however late its delay elapses,
    and whatever happens in between, it changes nothing, so it cannot turn a
    connected status into [error]. *)
Theorem open_cancels_timeout (p : nat) (id : string) (k : Peer)
    (es : list Event) (s : State) :
  peers (store s) !! p = Some k →
  is_Some (timers (store s) !! openTimeout k) →
  timerFires (openTimeout k) (run es (onOpen p id s)) = run es (onOpen p id s).
Proof.
  intros Hp [k0 Ht]. unfold onOpen. rewrite Hp.
  apply (disarmed_forever _ (MkTimer (delay k0) false (callback k0))); [|done].
  unfold clearTimeout. proj. by rewrite list_lookup_alter_eq, Ht.
Qed.

Lemma open_cancels_timeout_witness :
  timerFires 0 (run [PeerDisconnected 0] (onOpen 0 "user_42" (mount None 42))) =
  run [PeerDisconnected 0] (onOpen 0 "user_42" (mount None 42)).
Proof.
  assert (P : peers (store (mount None 42)) !! 0 = Some (MkPeer "user_42" false 0))
    by (vm_compute; reflexivity).
  assert (T : timers (store (mount None 42)) !! 0 =
              Some (MkTimer 15000 true (ConnectionTimeout disconnected)))
    by (vm_compute; reflexivity).
  exact (open_cancels_timeout 0 "user_42" _ [PeerDisconnected 0] (mount None 42)
           P (mk_is_Some _ _ T)).
Defined.

(** ** The controls of a call have a stream *)

Lemma handle_active_has_stream (e : Event) (s : State) :
  active_has_stream s → active_has_stream (handle e s).
Proof.
  unfold active_has_stream. intros H.
  destruct e; cases; try done; try (by eauto); try (by intros _).
  all: by rewrite H0.
Qed.

Lemma runEffects_active_has_stream (s : State) :
  active_has_stream s → active_has_stream (runEffects s).
Proof.
  unfold active_has_stream. intros H. cases; try done.
  all: by match goal with Hl : localStreamRef _ = None |- _ => rewrite Hl end.
Qed.

(** X17: in every state the component can reach, an active call has a
    local stream: whenever the mute, video and end buttons are shown,
    [localStreamRef] holds a stream, so the two toggles are never the no-op
    of the missing stream. *)
Theorem call_controls_have_stream (s : State) :
  reachable s →
  offered_by_ui ClickMute s = true →
  is_Some (localStreamRef (refs s)).
Proof.
  intros (username & n0 & es & _ & ->).
  assert (H0 : active_has_stream (mount username n0)).
  { apply runEffects_active_has_stream. by intros H. }
  revert H0. generalize (mount username n0).
  induction es as [|e es IH]; intros s H; [exact H|].
  apply IH. unfold step. destruct (offered_by_ui e s); [|done].
  by apply runEffects_active_has_stream, handle_active_has_stream.
Qed.

Lemma call_controls_have_stream_witness :
  is_Some (localStreamRef (refs in_call)).
Proof.
  assert (R : reachable in_call).
  { exists None, 42,
      [PeerOpen 0 "user_42"; PeerIncomingCall 0 "alice"; MediaGranted 0 camera true].
    split; [lia | vm_compute; reflexivity]. }
  assert (O : offered_by_ui ClickMute in_call = true) by (vm_compute; reflexivity).
  exact (call_controls_have_stream in_call R O).
Defined.
